(** * socketcan_interface: CAN headers, frames and their textual codec

    A shallow embedding of [socketcan_interface/interface.hpp] (the
    [Header] and [Frame] value types) and of [socketcan_interface/src/string.cpp]
    (the hexadecimal codec, the [ID#DATA] frame notation and the filter
    grammar), together with the properties of these functions.

    Conventions.
    - [unsigned int] and [uint32_t] are integers [Z] in [[0, 2^32)]; every
      operation that can leave that range is followed by [uint32].
    - [char], [unsigned char] and [uint8_t] are [ascii] (eight bits); [ord]
      and [chr] convert from and to [Z], [chr] wrapping modulo 256.
    - [std::string] is [list ascii]; [s[i]] is [char_at], [s[i] = c] is
      stdpp's [<[i:=c]>], [s.resize(n)] is stdpp's [resize] with fill NUL.
    - An out-parameter becomes an extra component of the result. *)

From Stdlib Require Import ZArith Ascii String List Bool Lia.
From stdpp Require Import base list.
Import ListNotations.

Local Open Scope Z_scope.

(** ** Characters and strings *)

Definition ord (c : ascii) : Z := Z.of_N (N_of_ascii c).
Definition chr (z : Z) : ascii := ascii_of_N (Z.to_N (z mod 256)).

Definition NUL : ascii := chr 0.

Abbreviation std_string := (list ascii).

(** A string literal as a [std::string]. *)
Definition str (s : String.string) : std_string := list_ascii_of_string s.

(** [s[i]]; reading at or beyond [s.size()] yields NUL (the source never
    reads beyond the size). *)
Definition char_at (s : std_string) (i : nat) : ascii := nth i s NUL.

Definition uint32 (z : Z) : Z := z mod 2 ^ 32.
Definition uint8 (z : Z) : Z := z mod 2 ^ 8.

Definition UINT_MAX : Z := 2 ^ 32 - 1.

(** ** interface.hpp: Header *)

Definition ID_MASK : Z := uint32 (Z.shiftl 1 29 - 1).
Definition ERROR_MASK : Z := uint32 (Z.shiftl 1 29).
Definition RTR_MASK : Z := uint32 (Z.shiftl 1 30).
Definition EXTENDED_MASK : Z := uint32 (Z.shiftl 1 31).

(** The four bit-fields [id : 29], [is_error : 1], [is_rtr : 1],
    [is_extended : 1]. *)
Record Header : Type := HeaderBits {
  id : Z;
  is_error : bool;
  is_rtr : bool;
  is_extended : bool
}.

(** The range of the 29-bit field [id]. *)
Definition id_in_field (h : Header) : Prop := 0 <= id h < 2 ^ 29.

(** [Header(unsigned int i, bool extended, bool rtr, bool error)]: the
    member initialiser [id(i)] stores [i] into a 29-bit field, which keeps
    the low 29 bits. *)
Definition mkHeader (i : Z) (extended rtr error : bool) : Header :=
  {| id := i mod 2 ^ 29;
     is_error := if error then true else false;
     is_rtr := if rtr then true else false;
     is_extended := if extended then true else false |}.

Definition isValid (h : Header) : bool :=
  id h <? (if is_extended h then Z.shiftl 1 29 else Z.shiftl 1 11).

Definition fullid (h : Header) : Z :=
  Z.lor (Z.lor (Z.lor (id h)
                      (if is_error h then ERROR_MASK else 0))
               (if is_rtr h then RTR_MASK else 0))
        (if is_extended h then EXTENDED_MASK else 0).

Definition key (h : Header) : Z :=
  if is_error h then ERROR_MASK else fullid h.

Definition MsgHeader (i : Z) (rtr : bool) : Header := mkHeader i false rtr false.
Definition ExtendedHeader (i : Z) (rtr : bool) : Header := mkHeader i true rtr false.
Definition ErrorHeader (i : Z) : Header := mkHeader i false false true.

(** ** interface.hpp: Frame *)

(** [data] is a [std::array<unsigned char, 8>] that no constructor
    initialises: a cell is [None] until it is written. *)
Record Frame : Type := FrameFields {
  header : Header;
  data : list (option ascii);
  dlc : Z
}.

(** [Frame(const Header & h, unsigned char l = 0)]. *)
Definition mkFrame (h : Header) (l : Z) : Frame :=
  {| header := h; data := replicate 8 None; dlc := uint8 l |}.

Definition Frame_isValid (f : Frame) : bool :=
  (dlc f <=? 8) && isValid (header f).

(** ** string.cpp: hexadecimal codec *)

(** [bool hex2dec(uint8_t & d, const char & h)]: [Some d] when it returns
    true with [d] set, [None] when it returns false. *)
Definition hex2dec (h : ascii) : option Z :=
  if (ord "0" <=? ord h) && (ord h <=? ord "9") then
    Some (uint8 (ord h - ord "0"))
  else if (ord "a" <=? ord h) && (ord h <=? ord "f") then
    Some (uint8 (ord h - ord "a" + 10))
  else if (ord "A" <=? ord h) && (ord h <=? ord "F") then
    Some (uint8 (ord h - ord "A" + 10))
  else None.

(** The loop of [hex2buffer]: [n] iterations are left, [i] is the index.
    The result is the returned flag and the contents of [out]. *)
Fixpoint hex2buffer_loop (n i : nat) (inp out : std_string)
  : bool * std_string :=
  match n with
  | O => (true, out)
  | S n' =>
    match hex2dec (char_at inp (2 * i)), hex2dec (char_at inp (2 * i + 1)) with
    | Some hi, Some lo =>
      hex2buffer_loop n' (S i) inp
        (<[i := chr (Z.lor (Z.shiftl hi 4) lo)]> out)
    | _, _ => (false, out)
    end
  end.

(** [bool hex2buffer(std::string & out, const std::string & in_raw, bool pad)]. *)
Definition hex2buffer (out in_raw : std_string) (pad : bool)
  : bool * std_string :=
  let padded :=
    if negb (Nat.eqb (length in_raw mod 2) 0) then
      if pad then Some (str "0" ++ in_raw) else None
    else Some in_raw in
  match padded with
  | None => (false, out)
  | Some inp =>
    let out1 := resize (Nat.shiftr (length inp) 1) NUL out in
    hex2buffer_loop (length out1) 0 inp out1
  end.

(** [bool dec2hex(char & h, const uint8_t & d, bool lc)]: the returned flag
    and the character left in [h]. *)
Definition dec2hex (d : Z) (lc : bool) : bool * ascii :=
  if d <? 10 then (true, chr (ord "0" + d))
  else if (d <? 16) && lc then (true, chr (ord "a" + (d - 10)))
  else if (d <? 16) && negb lc then (true, chr (ord "A" + (d - 10)))
  else (false, "?"%char).

(** [std::string byte2hex(const uint8_t & d, bool pad, bool lc)]; the flags
    returned by [dec2hex] are ignored, as in the source. *)
Definition byte2hex (d : Z) (pad lc : bool) : std_string :=
  let hi := uint8 (Z.shiftr d 4) in
  let s := if negb (hi =? 0) || pad then [snd (dec2hex hi lc)] else [] in
  s ++ [snd (dec2hex (Z.land d 15) lc)].

(** The loop of [buffer2hex] over the bytes still to encode; [s] is the
    text produced so far. *)
Fixpoint buffer2hex_loop (inp : std_string) (lc : bool) (s : std_string)
  : std_string :=
  match inp with
  | [] => s
  | c :: rest =>
    let b := byte2hex (ord c) true lc in
    match b with
    | [] => b
    | _ => buffer2hex_loop rest lc (s ++ b)
    end
  end.

Definition buffer2hex (inp : std_string) (lc : bool) : std_string :=
  buffer2hex_loop inp lc [].

(** ** The stream operations used by string.cpp

    [tostring] and [tohex] go through a [std::stringstream].  The two
    operations they use are modelled after libstdc++ in the classic locale:
    insertion of an unsigned value with [std::hex], an optional fill
    character and width; and extraction of an [unsigned int] with
    [std::hex]. *)

Definition hex_lit (uppercase : bool) (d : Z) : ascii :=
  nth (Z.to_nat d)
      (str (if uppercase then "0123456789ABCDEF" else "0123456789abcdef")) NUL.

(** The digit loop of the insertion,
    [do { *--buf = lit[v & 0xf]; v >>= 4; } while (v != 0);].  [fuel] bounds
    the iterations after the first one. *)
Fixpoint int_to_char (fuel : nat) (uppercase : bool) (v : Z) (buf : std_string)
  : std_string :=
  let buf' := hex_lit uppercase (Z.land v 15) :: buf in
  let v' := Z.shiftr v 4 in
  match fuel with
  | O => buf'
  | S fuel' => if v' =? 0 then buf' else int_to_char fuel' uppercase v' buf'
  end.

(** [buf << std::hex << (no)uppercase << setfill(fill) << setw(width) << v]
    for a 32-bit [v]: the digits, right-adjusted in the field. *)
Definition put_hex (uppercase : bool) (fill : ascii) (width : nat) (v : Z)
  : std_string :=
  let digits := int_to_char 7 uppercase v [] in
  replicate (width - length digits) fill ++ digits.

Definition isspace (c : ascii) : bool :=
  (ord c =? 32) || ((9 <=? ord c) && (ord c <=? 13)).

Fixpoint skipws (s : std_string) : std_string :=
  match s with
  | c :: rest => if isspace c then skipws rest else s
  | [] => []
  end.

(** The value of a character as a hexadecimal digit, if it is one. *)
Definition M_find (c : ascii) : option Z :=
  if (ord "0" <=? ord c) && (ord c <=? ord "9") then Some (ord c - ord "0")
  else if (ord "a" <=? ord c) && (ord c <=? ord "f") then
    Some (10 + (ord c - ord "a"))
  else if (ord "A" <=? ord c) && (ord c <=? ord "F") then
    Some (10 + (ord c - ord "A"))
  else None.

(** The accumulation loop of the extraction: it stops at the first
    character that is not a digit, and once the value no longer fits it
    only records the overflow. *)
Fixpoint M_extract_digits (s : std_string) (result : Z) (overflow : bool)
  (sep_pos : nat) : Z * bool * nat :=
  match s with
  | [] => (result, overflow, sep_pos)
  | c :: rest =>
    match M_find c with
    | None => (result, overflow, sep_pos)
    | Some digit =>
      if result >? UINT_MAX / 16 then
        M_extract_digits rest result true sep_pos
      else
        let result' := uint32 (result * 16) in
        let overflow' := overflow || (result' >? UINT_MAX - digit) in
        M_extract_digits rest (uint32 (result' + digit)) overflow' (S sep_pos)
    end
  end.

(** [stream >> h] with [std::hex], [h] holding [h0] before: leading white
    space is skipped; at the end of the input [h] is left alone; otherwise
    an optional sign, an optional [0x] or [0X] and the digits are read.
    Without any digit the value is 0, on overflow it is [UINT_MAX], and a
    minus sign negates modulo 2^32. *)
Definition get_hex (h0 : Z) (s : std_string) : Z :=
  match skipws s with
  | [] => h0
  | c :: rest =>
    let negative := Ascii.eqb c "-" in
    let s1 := if negative || Ascii.eqb c "+" then rest else c :: rest in
    let '(found_zero, sep0, s2) :=
      match s1 with
      | z :: r1 =>
        if Ascii.eqb z "0" then
          match r1 with
          | x :: r2 =>
            if Ascii.eqb x "x" || Ascii.eqb x "X" then (false, O, r2)
            else (true, 1%nat, r1)
          | [] => (true, 1%nat, r1)
          end
        else (false, O, s1)
      | [] => (false, O, s1)
      end in
    let '(result, overflow, sep_pos) := M_extract_digits s2 0 false sep0 in
    if Nat.eqb sep_pos 0 && negb found_zero then 0
    else if overflow then UINT_MAX
    else if negative then uint32 (- result) else result
  end.

(** [s.find(c)] and [s.find_first_of(chars)]: [None] is [npos]. *)
Fixpoint str_find (c : ascii) (s : std_string) : option nat :=
  match s with
  | [] => None
  | x :: rest => if Ascii.eqb x c then Some O else S <$> str_find c rest
  end.

Fixpoint find_first_of (chars s : std_string) : option nat :=
  match s with
  | [] => None
  | x :: rest =>
    if existsb (Ascii.eqb x) chars then Some O
    else S <$> find_first_of chars rest
  end.

(** [s.substr(pos, n)] for [pos <= s.size()]; [n = None] is [npos]. *)
Definition substr (s : std_string) (pos : nat) (n : option nat) : std_string :=
  match n with
  | Some n => take n (drop pos s)
  | None => drop pos s
  end.

(** ** string.cpp: headers and frames as text *)

(** [std::string tostring(const Header & h, bool lc)]. *)
Definition tostring (h : Header) (lc : bool) : std_string :=
  let uppercase := negb lc in
  let v := Z.land (fullid h) (uint32 (Z.lnot EXTENDED_MASK)) in
  if is_extended h then put_hex uppercase "0" 8 v
  else put_hex uppercase " " 0 v.

(** [uint32_t tohex(const std::string & s)]. *)
Definition tohex (s : std_string) : Z := get_hex 0 s.

(** Conversion of an [unsigned int] to [bool]. *)
Definition to_bool (z : Z) : bool := negb (z =? 0).

(** [Header toheader(const std::string & s)]. *)
Definition toheader (s : std_string) : Header :=
  let h := tohex s in
  let id := Z.land h ID_MASK in
  mkHeader id
    (to_bool (Z.land h EXTENDED_MASK)
     || (Nat.eqb (length s) 8 && (id >=? Z.shiftl 1 11)))
    (to_bool (Z.land h RTR_MASK))
    (to_bool (Z.land h ERROR_MASK)).

(** The copy loop of [toframe], [frame.data[i] = buffer[i]]. *)
Fixpoint copy_data (n i : nat) (buffer : std_string) (d : list (option ascii))
  : list (option ascii) :=
  match n with
  | O => d
  | S n' => copy_data n' (S i) buffer (<[i := Some (char_at buffer i)]> d)
  end.

(** [Frame toframe(const std::string & s)]. *)
Definition toframe (s : std_string) : Frame :=
  match str_find "#" s with
  | None => mkFrame (MsgHeader 0xfff false) 0
  | Some sep =>
    let header := toheader (substr s 0 (Some sep)) in
    let frame := mkFrame header 0 in
    if isValid header then
      match hex2buffer [] (substr s (sep + 1) None) false with
      | (true, buffer) =>
        if (8 <? length buffer)%nat then mkFrame (MsgHeader 0xfff false) 0
        else
          {| header := header;
             data := copy_data (length buffer) 0 buffer (data frame);
             dlc := uint8 (Z.of_nat (length buffer)) |}
      | (false, _) => frame
      end
    else frame
  end.

(** The loop of [tostring] for frames, [s[i] = f.data[i]]: [n] iterations
    are left, [i] is the index.  [None] when the loop reads a cell of
    [data] that was never written, or a cell outside the array: the text
    is then not determined by the frame. *)
Fixpoint read_data (n i : nat) (d : list (option ascii)) (s : std_string)
  : option std_string :=
  match n with
  | O => Some s
  | S n' =>
    match d !! i with
    | Some (Some c) => read_data n' (S i) d (<[i := c]> s)
    | _ => None
    end
  end.

(** [std::string tostring(const Frame & f, bool lc)]. *)
Definition tostring_Frame (f : Frame) (lc : bool) : option std_string :=
  let s := resize (Z.to_nat (dlc f)) NUL [] in
  match read_data (Z.to_nat (dlc f)) 0 (data f) s with
  | Some s' => Some (tostring (header f) lc ++ "#"%char :: buffer2hex s' lc)
  | None => None
  end.

(** ** string.cpp: filters from text *)

(** The two filter classes of filter.hpp, as the constructor calls of
    [tofilter] build them: the arguments of the call in their order. *)
Inductive FrameFilter : Type :=
| FrameMaskFilter (first second : Z) (invert : bool)
| FrameRangeFilter (first second : Z) (invert : bool).

Section Filter.

(** [FrameMaskFilter::MASK_RELAXED], a constant of filter.hpp. *)
Variable MASK_RELAXED : Z.

(** [FrameFilterSharedPtr tofilter(const std::string & s)]: [None] is the
    null pointer the function starts from; the function has no other way
    to report an error. *)
Definition tofilter (s : std_string) : option FrameFilter :=
  let delim := find_first_of (str ":~-_") s in
  let '(type, second) :=
    match delim with
    | Some d => (char_at s d, tohex (substr s (d + 1) None))
    | None => (":"%char, MASK_RELAXED)
    end in
  let first :=
    fullid (toheader (match delim with
                      | Some d => substr s 0 (Some d)
                      | None => substr s 0 None
                      end)) in
  if Ascii.eqb type "~" then Some (FrameMaskFilter first second true)
  else if Ascii.eqb type ":" then Some (FrameMaskFilter first second false)
  else if Ascii.eqb type "_" then Some (FrameRangeFilter first second true)
  else if Ascii.eqb type "-" then Some (FrameRangeFilter first second false)
  else None.

End Filter.

(** ** Reference notions used in the statements *)

(** The sentinel that [toframe] returns for text it rejects. *)
Definition sentinel : Frame := mkFrame (MsgHeader 0xfff false) 0.

Definition is_hex_digit (c : ascii) : bool :=
  match hex2dec c with Some _ => true | None => false end.

(** The number a string of hexadecimal digits denotes, most significant
    digit first, continuing from [acc]. *)
Definition hexval_from (acc : Z) (s : std_string) : Z :=
  fold_left (fun a c => a * 16 + default 0 (hex2dec c)) s acc.

Definition hexval (s : std_string) : Z := hexval_from 0 s.

(** The digits that [dec2hex] writes for a given case flag: [0-9] and
    [a-f] when [lc], [0-9] and [A-F] otherwise. *)
Definition is_digit_of_case (lc : bool) (c : ascii) : bool :=
  ((ord "0" <=? ord c) && (ord c <=? ord "9"))
  || (if lc then (ord "a" <=? ord c) && (ord c <=? ord "f")
      else (ord "A" <=? ord c) && (ord c <=? ord "F")).

(** The text that [hex2buffer] decodes: the input, with a ['0'] in front
    when it has odd length. *)
Definition padded_input (in_raw : std_string) : std_string :=
  if Nat.odd (length in_raw) then str "0" ++ in_raw else in_raw.

(** The characters that separate the two halves of a filter. *)
Definition is_separator (c : ascii) : bool :=
  existsb (Ascii.eqb c) (str ":~-_").

(** ** Sanity checks on concrete inputs *)

Example toframe_1A3 :
  let f := toframe (str "1A3#DEADBEEF") in
  header f = mkHeader 0x1A3 false false false /\ dlc f = 4 /\
  take 4 (data f) = [Some (chr 0xDE); Some (chr 0xAD); Some (chr 0xBE); Some (chr 0xEF)].
Proof. vm_compute. repeat split. Qed.

Example tostring_ext :
  tostring (ExtendedHeader 0x1337 false) true = str "00001337" /\
  tostring (MsgHeader 0x1A3 false) false = str "1A3" /\
  tostring (MsgHeader 0 false) false = str "0".
Proof. vm_compute. repeat split. Qed.

Example tohex_samples :
  tohex (str "80001337") = 0x80001337 /\ tohex (str "") = 0 /\
  tohex (str "0x1f") = 31 /\ tohex (str "123456789") = UINT_MAX /\
  tohex (str " 1Az") = 26 /\ tohex (str "zz") = 0.
Proof. vm_compute. repeat split. Qed.

(** ** Characters *)

Ltac ascii_cases c := destruct c as [[] [] [] [] [] [] [] []].

Lemma ord_range (c : ascii) : 0 <= ord c < 256.
Proof. ascii_cases c; vm_compute; split; congruence. Qed.

Lemma chr_ord (c : ascii) : chr (ord c) = c.
Proof. ascii_cases c; reflexivity. Qed.

Lemma ord_chr (z : Z) : 0 <= z < 256 -> ord (chr z) = z.
Proof.
  intros Hz. unfold ord, chr.
  rewrite Z.mod_small by lia.
  rewrite N_ascii_embedding; [lia|].
  change 256%N with (Z.to_N 256). lia.
Qed.

Lemma nibble_cases (d : Z) :
  0 <= d < 16 ->
  d = 0 \/ d = 1 \/ d = 2 \/ d = 3 \/ d = 4 \/ d = 5 \/ d = 6 \/ d = 7 \/
  d = 8 \/ d = 9 \/ d = 10 \/ d = 11 \/ d = 12 \/ d = 13 \/ d = 14 \/ d = 15.
Proof. lia. Qed.

Ltac by_nibble d H :=
  let E := fresh in
  pose proof (nibble_cases d H) as E;
  repeat (destruct E as [E | E]; [subst d |]); [.. | subst d].

Lemma hex2dec_range (c : ascii) (d : Z) : hex2dec c = Some d -> 0 <= d < 16.
Proof. ascii_cases c; vm_compute; intros [= <-]; split; congruence. Qed.

Lemma M_find_hex2dec (c : ascii) : M_find c = hex2dec c.
Proof. ascii_cases c; reflexivity. Qed.

Lemma dec2hex_nibble (d : Z) (lc : bool) :
  0 <= d < 16 ->
  fst (dec2hex d lc) = true /\ hex2dec (snd (dec2hex d lc)) = Some d.
Proof. intros H. by_nibble d H; destruct lc; vm_compute; auto. Qed.

Lemma hex_lit_nibble (d : Z) (uc : bool) :
  0 <= d < 16 -> hex2dec (hex_lit uc d) = Some d.
Proof. intros H. by_nibble d H; destruct uc; reflexivity. Qed.

Lemma hi_nibble_range (d : Z) : 0 <= d < 256 -> 0 <= uint8 (Z.shiftr d 4) < 16.
Proof.
  intros H. unfold uint8. rewrite Z.shiftr_div_pow2 by lia.
  change (2 ^ 4) with 16. change (2 ^ 8) with 256.
  assert (0 <= d / 16 < 16)
    by (split; [apply Z.div_pos | apply Z.div_lt_upper_bound]; lia).
  rewrite Z.mod_small; lia.
Qed.

Lemma lo_nibble_range (d : Z) : 0 <= Z.land d 15 < 16.
Proof.
  change 15 with (Z.ones 4). rewrite Z.land_ones by lia.
  apply Z.mod_pos_bound. lia.
Qed.

(** ** Header construction and validity *)

Lemma mkHeader_id_in_field (i : Z) (e r er : bool) :
  id_in_field (mkHeader i e r er).
Proof. unfold id_in_field; simpl. apply Z.mod_pos_bound. lia. Qed.

(** C6, as the code has it: construction is total and keeps the low 29
    bits of the identifier, so the constructed header is invalid exactly
    when it is a standard header whose stored identifier does not fit in 11
    bits.  An extended header is always valid, and an identifier of 2^29 or
    more is judged by its low 29 bits only. *)
Theorem mkHeader_isValid (i : Z) (extended rtr error : bool) :
  let h := mkHeader i extended rtr error in
  id h = i mod 2 ^ 29 /\
  is_extended h = extended /\ is_rtr h = rtr /\ is_error h = error /\
  (isValid h = false <-> extended = false /\ 2 ^ 11 <= i mod 2 ^ 29).
Proof.
  pose proof (mkHeader_id_in_field i extended rtr error) as Hf.
  unfold id_in_field in Hf. simpl in *.
  split; [reflexivity|].
  split; [destruct extended; reflexivity|].
  split; [destruct rtr; reflexivity|].
  split; [destruct error; reflexivity|].
  unfold isValid; simpl.
  change (Z.shiftl 1 29) with (2 ^ 29). change (Z.shiftl 1 11) with (2 ^ 11).
  destruct extended; rewrite Z.ltb_ge; split.
  - lia.
  - intros [? _]. discriminate.
  - intros H. split; [reflexivity | exact H].
  - intros [_ H]. exact H.
Qed.

(** C6, as stated, fails: the identifier 2^29 fits neither width, yet the
    header constructed from it (standard or extended) is valid, because the
    29-bit field stores 0. *)
Lemma mkHeader_invalid_id_valid :
  ~ (2 ^ 29 < 2 ^ 11) /\ ~ (2 ^ 29 < 2 ^ 29) /\
  isValid (mkHeader (2 ^ 29) false false false) = true /\
  isValid (mkHeader (2 ^ 29) true false false) = true.
Proof. repeat split; lia. Qed.

(** ** Searching a string *)

Lemma str_find_None (c : ascii) (s : std_string) :
  c ∉ s -> str_find c s = None.
Proof.
  induction s as [|x s IH]; intros Hc; simpl; [reflexivity|].
  apply not_elem_of_cons in Hc as [Hne Hc].
  destruct (Ascii.eqb_spec x c) as [->|_]; [congruence|].
  rewrite IH by assumption. reflexivity.
Qed.

Lemma str_find_first (c : ascii) (pre post : std_string) :
  c ∉ pre -> str_find c (pre ++ c :: post) = Some (length pre).
Proof.
  induction pre as [|x pre IH]; intros Hc; simpl.
  - rewrite Ascii.eqb_refl. reflexivity.
  - apply not_elem_of_cons in Hc as [Hne Hc].
    destruct (Ascii.eqb_spec x c) as [->|_]; [congruence|].
    rewrite IH by assumption. reflexivity.
Qed.

Lemma find_first_of_None (chars s : std_string) :
  Forall (fun c => existsb (Ascii.eqb c) chars = false) s ->
  find_first_of chars s = None.
Proof.
  induction 1 as [|x s Hx _ IH]; simpl; [reflexivity|].
  rewrite Hx, IH. reflexivity.
Qed.

(** ** Text without a separator *)

(** C7: a string without ['#'] decodes to the sentinel, a standard header
    with identifier 0xfff, which is not valid: 0xfff does not fit in 11
    bits. *)
Theorem toframe_no_hash (s : std_string) :
  "#"%char ∉ s ->
  toframe s = sentinel /\
  is_extended (header (toframe s)) = false /\
  id (header (toframe s)) = 0xfff /\
  ~ (0xfff < 2 ^ 11) /\
  isValid (header (toframe s)) = false /\
  Frame_isValid (toframe s) = false.
Proof.
  intros Hs. unfold toframe. rewrite (str_find_None _ _ Hs).
  repeat split; lia.
Qed.

Lemma toframe_no_hash_witness :
  toframe (str "123") = sentinel /\
  is_extended (header (toframe (str "123"))) = false /\
  id (header (toframe (str "123"))) = 0xfff /\
  ~ (0xfff < 2 ^ 11) /\
  isValid (header (toframe (str "123"))) = false /\
  Frame_isValid (toframe (str "123")) = false.
Proof.
  apply (toframe_no_hash (str "123")).
  vm_compute. intros H.
  repeat (apply elem_of_cons in H as [H|H]; [discriminate|]).
  inversion H.
Defined.

(** C2, as the code has it: ["000007FF#"] decodes to the valid standard
    header with identifier 0x7FF and an empty payload.  The 8-character rule
    of [toheader] makes a header extended only when the identifier is at
    least 2^11. *)
Theorem toframe_000007FF :
  toframe (str "000007FF#") = mkFrame (mkHeader 0x7FF false false false) 0 /\
  Frame_isValid (toframe (str "000007FF#")) = true /\
  is_extended (header (toframe (str "00000800#"))) = true.
Proof. vm_compute. repeat split. Qed.

(** C2, as stated, fails: the header decoded from ["000007FF#"] is not
    extended. *)
Lemma toframe_000007FF_not_extended :
  is_extended (header (toframe (str "000007FF#"))) = false.
Proof. reflexivity. Qed.

(** ** Filters *)

Lemma no_separator_chars (s : std_string) :
  ":"%char ∉ s -> "~"%char ∉ s -> "-"%char ∉ s -> "_"%char ∉ s ->
  Forall (fun c => is_separator c = false) s.
Proof.
  intros H1 H2 H3 H4. apply Forall_forall. intros c Hc.
  unfold is_separator. cbn [str list_ascii_of_string existsb].
  destruct (Ascii.eqb_spec c ":") as [->|_]; [contradiction|].
  destruct (Ascii.eqb_spec c "~") as [->|_]; [contradiction|].
  destruct (Ascii.eqb_spec c "-") as [->|_]; [contradiction|].
  destruct (Ascii.eqb_spec c "_") as [->|_]; [contradiction|].
  reflexivity.
Qed.

(** C4, as the code has it: a specification without separator is not an
    error; it builds the mask filter on the whole text as header, with the
    relaxed mask and no inversion. *)
Theorem tofilter_no_separator (MASK_RELAXED : Z) (s : std_string) :
  ":"%char ∉ s -> "~"%char ∉ s -> "-"%char ∉ s -> "_"%char ∉ s ->
  tofilter MASK_RELAXED s =
  Some (FrameMaskFilter (fullid (toheader s)) MASK_RELAXED false).
Proof.
  intros H1 H2 H3 H4. unfold tofilter.
  rewrite (find_first_of_None _ _ (no_separator_chars s H1 H2 H3 H4)).
  reflexivity.
Qed.

Lemma tofilter_no_separator_witness :
  tofilter 0x7FFFFFFF (str "123") =
  Some (FrameMaskFilter (fullid (toheader (str "123"))) 0x7FFFFFFF false).
Proof.
  apply (tofilter_no_separator 0x7FFFFFFF (str "123"));
    vm_compute; intros H;
    repeat (apply elem_of_cons in H as [H|H]; [discriminate|]);
    inversion H.
Defined.

(** C4, as stated, fails: ["123"] has no separator, and [tofilter] returns
    a filter for it (here with the complement of [EXTENDED_MASK] as the
    relaxed mask). *)
Lemma tofilter_123_is_filter :
  forallb (fun c => negb (is_separator c)) (str "123") = true /\
  tofilter (uint32 (Z.lnot EXTENDED_MASK)) (str "123") =
  Some (FrameMaskFilter 0x123 0x7FFFFFFF false).
Proof. split; reflexivity. Qed.

(** ** Encoding bytes *)

Lemma byte2hex_pad (d : Z) (lc : bool) :
  byte2hex d true lc =
  [snd (dec2hex (uint8 (Z.shiftr d 4)) lc); snd (dec2hex (Z.land d 15) lc)].
Proof. unfold byte2hex. rewrite orb_true_r. reflexivity. Qed.

Lemma buffer2hex_loop_flat (inp : std_string) (lc : bool) (s : std_string) :
  buffer2hex_loop inp lc s =
  s ++ flat_map (fun c => byte2hex (ord c) true lc) inp.
Proof.
  revert s. induction inp as [|c inp IH]; intros s; simpl.
  - rewrite app_nil_r. reflexivity.
  - rewrite byte2hex_pad. rewrite IH. rewrite <- app_assoc. reflexivity.
Qed.

Lemma buffer2hex_flat (inp : std_string) (lc : bool) :
  buffer2hex inp lc = flat_map (fun c => byte2hex (ord c) true lc) inp.
Proof. unfold buffer2hex. rewrite buffer2hex_loop_flat. reflexivity. Qed.

Lemma buffer2hex_length (inp : std_string) (lc : bool) :
  length (buffer2hex inp lc) = (2 * length inp)%nat.
Proof.
  rewrite buffer2hex_flat. induction inp as [|c inp IH]; [reflexivity|].
  cbn [flat_map]. rewrite byte2hex_pad. cbn [length app]. rewrite IH. lia.
Qed.

Lemma buffer2hex_digits (inp : std_string) (lc : bool) :
  Forall (fun c => is_hex_digit c = true) (buffer2hex inp lc).
Proof.
  rewrite buffer2hex_flat. induction inp as [|c inp IH]; [constructor|].
  cbn [flat_map]. rewrite byte2hex_pad. cbn [app].
  pose proof (ord_range c) as Hc.
  destruct (dec2hex_nibble _ lc (hi_nibble_range _ Hc)) as [_ Hhi].
  destruct (dec2hex_nibble _ lc (lo_nibble_range (ord c))) as [_ Hlo].
  repeat constructor; [unfold is_hex_digit ..|exact IH].
  - rewrite Hhi. reflexivity.
  - rewrite Hlo. reflexivity.
Qed.

(** C10: [buffer2hex] never leaves through its failure branch.  Both
    nibbles of a byte are below 16, [dec2hex] succeeds on them, the
    encoding of a byte has two characters, and the result is the
    concatenation of the encodings of all bytes: twice as many characters
    as bytes, all of them hexadecimal digits, and not empty unless the
    input is. *)
Theorem buffer2hex_total (inp : std_string) (lc : bool) :
  Forall (fun c =>
            0 <= uint8 (Z.shiftr (ord c) 4) < 16 /\
            0 <= Z.land (ord c) 15 < 16 /\
            fst (dec2hex (uint8 (Z.shiftr (ord c) 4)) lc) = true /\
            fst (dec2hex (Z.land (ord c) 15) lc) = true /\
            length (byte2hex (ord c) true lc) = 2%nat) inp /\
  buffer2hex inp lc = flat_map (fun c => byte2hex (ord c) true lc) inp /\
  length (buffer2hex inp lc) = (2 * length inp)%nat /\
  Forall (fun c => is_hex_digit c = true) (buffer2hex inp lc) /\
  (buffer2hex inp lc = [] <-> inp = []).
Proof.
  split; [|split; [|split; [|split]]].
  - apply Forall_forall. intros c _.
    pose proof (ord_range c) as Hc.
    pose proof (hi_nibble_range _ Hc) as Hhi.
    pose proof (lo_nibble_range (ord c)) as Hlo.
    split; [exact Hhi|]. split; [exact Hlo|].
    split; [apply dec2hex_nibble; exact Hhi|].
    split; [apply dec2hex_nibble; exact Hlo|].
    rewrite byte2hex_pad. reflexivity.
  - apply buffer2hex_flat.
  - apply buffer2hex_length.
  - apply buffer2hex_digits.
  - pose proof (buffer2hex_length inp lc) as Hlen. split.
    + intros E. rewrite E in Hlen. destruct inp; [reflexivity|].
      simpl in Hlen. lia.
    + intros ->. reflexivity.
Qed.

(** ** Decoding what was encoded *)

Lemma byte_recompose (c : ascii) :
  chr (Z.lor (Z.shiftl (uint8 (Z.shiftr (ord c) 4)) 4) (Z.land (ord c) 15)) = c.
Proof. ascii_cases c; reflexivity. Qed.

Lemma buffer2hex_char_at (b : std_string) (lc : bool) (i : nat) (c : ascii) :
  b !! i = Some c ->
  hex2dec (char_at (buffer2hex b lc) (2 * i)) = Some (uint8 (Z.shiftr (ord c) 4)) /\
  hex2dec (char_at (buffer2hex b lc) (2 * i + 1)) = Some (Z.land (ord c) 15).
Proof.
  rewrite buffer2hex_flat. unfold char_at.
  revert i. induction b as [|x b IH]; intros i Hi; [discriminate|].
  cbn [flat_map]. rewrite byte2hex_pad. cbn [app].
  destruct i as [|i].
  - injection Hi as ->. cbn [Nat.mul Nat.add nth].
    pose proof (ord_range c) as Hc.
    split; apply dec2hex_nibble; [apply hi_nibble_range; exact Hc|].
    apply lo_nibble_range.
  - replace (2 * S i)%nat with (S (S (2 * i))) by lia.
    replace (S (S (2 * i)) + 1)%nat with (S (S (2 * i + 1))) by lia.
    cbn [nth]. apply IH. exact Hi.
Qed.

Lemma hex2buffer_loop_encoded (b : std_string) (lc : bool) (n : nat) :
  forall (i : nat) (out : std_string),
    (i + n)%nat = length b -> length out = length b ->
    take i out = take i b ->
    hex2buffer_loop n i (buffer2hex b lc) out = (true, b).
Proof.
  induction n as [|n IH]; intros i out Hin Hlen Htake.
  - simpl. rewrite !take_ge in Htake by lia. subst out. reflexivity.
  - destruct (lookup_lt_is_Some_2 b i) as [c Hc]; [lia|].
    destruct (buffer2hex_char_at b lc i c Hc) as [Hhi Hlo].
    cbn [hex2buffer_loop]. rewrite Hhi, Hlo. rewrite byte_recompose.
    apply IH; [lia | rewrite length_insert; exact Hlen |].
    rewrite (take_S_r b i c Hc).
    rewrite (take_S_r _ i c) by (apply list_lookup_insert_eq; lia).
    rewrite take_insert_ge by lia. rewrite Htake. reflexivity.
Qed.

(** C8: decoding the encoding of a byte sequence succeeds and gives the
    sequence back, for either case flag, with or without padding, whatever
    the output buffer held before.  This holds for the empty sequence as
    well as for the non-empty ones. *)
Theorem hex2buffer_buffer2hex (b : std_string) (lc pad : bool)
  (out : std_string) :
  hex2buffer out (buffer2hex b lc) pad = (true, b).
Proof.
  unfold hex2buffer. rewrite buffer2hex_length.
  replace ((2 * length b) mod 2)%nat with O
    by (rewrite Nat.mul_comm, Nat.Div0.mod_mul; reflexivity).
  cbn [Nat.eqb negb].
  assert (Hhalf : Nat.shiftr (length (buffer2hex b lc)) 1 = length b).
  { rewrite buffer2hex_length, Nat.shiftr_div_pow2.
    change (2 ^ 1)%nat with 2%nat.
    rewrite Nat.mul_comm, Nat.div_mul by lia. reflexivity. }
  rewrite Hhalf. rewrite length_resize.
  apply hex2buffer_loop_encoded; [lia | apply length_resize | reflexivity].
Qed.

(** ** Failure of hex2buffer *)

(** The loop fails as soon as one of the characters it reads is not a
    hexadecimal digit. *)
Lemma hex2buffer_loop_bad_char (n : nat) :
  forall (i : nat) (inp out : std_string) (k : nat),
    (2 * i <= k < 2 * (i + n))%nat ->
    hex2dec (char_at inp k) = None ->
    fst (hex2buffer_loop n i inp out) = false.
Proof.
  induction n as [|n IH]; intros i inp out k Hk Hbad; [lia|].
  cbn [hex2buffer_loop].
  destruct (hex2dec (char_at inp (2 * i))) as [hi|] eqn:Hhi; [|reflexivity].
  destruct (hex2dec (char_at inp (2 * i + 1))) as [lo|] eqn:Hlo; [|reflexivity].
  apply (IH (S i) inp _ k); [|exact Hbad].
  destruct (Nat.eq_dec k (2 * i)%nat) as [->|]; [congruence|].
  destruct (Nat.eq_dec k (2 * i + 1)%nat) as [->|]; [congruence|].
  lia.
Qed.


Lemma odd_mod2 (n : nat) : Nat.odd n = negb (Nat.eqb (n mod 2) 0).
Proof.
  destruct (Nat.odd n) eqn:E.
  - apply Nat.odd_spec in E as [m ->].
    rewrite Nat.add_comm, Nat.mul_comm, Nat.Div0.mod_add. reflexivity.
  - rewrite <- Nat.negb_even in E. apply negb_false_iff in E.
    apply Nat.even_spec in E as [m ->].
    rewrite Nat.mul_comm, Nat.Div0.mod_mul. reflexivity.
Qed.

Lemma shiftr_1_double (n : nat) :
  (n mod 2)%nat = O -> (2 * Nat.shiftr n 1)%nat = n.
Proof.
  intros H. rewrite Nat.shiftr_div_pow2. change (2 ^ 1)%nat with 2%nat.
  pose proof (Nat.div_mod_eq n 2). lia.
Qed.

(** Decoding fails on text of odd length when no padding is asked for, and
    on text that holds a character that is not a hexadecimal digit. *)
Lemma hex2buffer_malformed (out inp : std_string) :
  Nat.odd (length inp) = true \/ Exists (fun c => is_hex_digit c = false) inp ->
  fst (hex2buffer out inp false) = false.
Proof.
  intros H. unfold hex2buffer.
  destruct (Nat.eqb_spec (length inp mod 2) 0) as [Heven|Hodd];
    [|reflexivity].
  cbn [negb]. destruct H as [H|H].
  { rewrite <- Nat.negb_even in H. apply negb_true_iff in H.
    assert (Nat.even (length inp) = true); [|congruence].
    apply Nat.even_spec. exists (Nat.shiftr (length inp) 1).
    symmetry. apply shiftr_1_double. exact Heven. }
  apply Exists_exists in H as (c & Hin & Hc).
  apply list_elem_of_lookup_1 in Hin as [k Hk].
  pose proof (lookup_lt_Some _ _ _ Hk) as Hlt.
  pose proof (shiftr_1_double _ Heven) as Hhalf.
  rewrite length_resize.
  apply (hex2buffer_loop_bad_char _ 0 inp _ k); [lia|].
  unfold char_at. rewrite (nth_lookup_Some _ _ _ _ Hk).
  unfold is_hex_digit in Hc. destruct (hex2dec c); [discriminate|reflexivity].
Qed.




(** ** Frames with a malformed payload *)

Lemma toframe_split (pre post : std_string) :
  "#"%char ∉ pre ->
  toframe (pre ++ "#"%char :: post) =
  let header := toheader pre in
  let frame := mkFrame header 0 in
  if isValid header then
    match hex2buffer [] post false with
    | (true, buffer) =>
      if (8 <? length buffer)%nat then sentinel
      else {| header := header;
              data := copy_data (length buffer) 0 buffer (data frame);
              dlc := uint8 (Z.of_nat (length buffer)) |}
    | (false, _) => frame
    end
  else frame.
Proof.
  intros Hpre. unfold toframe, substr.
  rewrite (str_find_first _ _ _ Hpre).
  rewrite drop_0, take_app_length.
  replace (pre ++ "#"%char :: post) with ((pre ++ ["#"%char]) ++ post)
    by (rewrite <- app_assoc; reflexivity).
  rewrite drop_app_length' by (rewrite length_app; reflexivity).
  reflexivity.
Qed.

(** C9, as the code has it: when the text after the first ['#'] has odd
    length or holds a character that is not a hexadecimal digit, [toframe]
    returns the header parsed from the text before the ['#'], with [dlc]
    0 and no payload byte written.  That frame differs from the sentinel
    unless the parsed header is itself the standard header 0xfff. *)
Theorem toframe_malformed_payload (pre post : std_string) :
  "#"%char ∉ pre ->
  Nat.odd (length post) = true \/
  Exists (fun c => is_hex_digit c = false) post ->
  toframe (pre ++ "#"%char :: post) = mkFrame (toheader pre) 0 /\
  header (toframe (pre ++ "#"%char :: post)) = toheader pre /\
  dlc (toframe (pre ++ "#"%char :: post)) = 0 /\
  (toheader pre <> MsgHeader 0xfff false ->
   toframe (pre ++ "#"%char :: post) <> sentinel).
Proof.
  intros Hpre Hpost.
  assert (E : toframe (pre ++ "#"%char :: post) = mkFrame (toheader pre) 0).
  { rewrite (toframe_split _ _ Hpre). cbv zeta.
    pose proof (hex2buffer_malformed [] post Hpost) as Hfail.
    destruct (isValid (toheader pre)); [|reflexivity].
    destruct (hex2buffer [] post false) as [[] buffer];
      [discriminate | reflexivity]. }
  rewrite E. split; [reflexivity|]. split; [reflexivity|].
  split; [reflexivity|].
  intros Hne Heq. apply Hne.
  apply (f_equal header) in Heq. exact Heq.
Qed.

Lemma toframe_malformed_payload_witness :
  toframe (str "123#ABC") = mkFrame (toheader (str "123")) 0 /\
  header (toframe (str "123#ABC")) = toheader (str "123") /\
  dlc (toframe (str "123#ABC")) = 0 /\
  (toheader (str "123") <> MsgHeader 0xfff false ->
   toframe (str "123#ABC") <> sentinel).
Proof.
  apply (toframe_malformed_payload (str "123") (str "ABC")).
  - vm_compute. intros H.
    repeat (apply elem_of_cons in H as [H|H]; [discriminate|]).
    inversion H.
  - left. reflexivity.
Defined.

(** C9, as stated, fails: the payload of ["FFF#G"] is malformed, and the
    frame returned for it is the sentinel, because the header parsed from
    ["FFF"] is the standard header 0xfff. *)
Lemma toframe_FFF_G_is_sentinel :
  str_find "#" (str "FFF#G") = Some 3%nat /\
  fst (hex2buffer [] (str "G") false) = false /\
  toframe (str "FFF#G") = sentinel.
Proof. repeat split. Qed.

(** ** Extraction of a hexadecimal number *)

Lemma hex_digit_plain (c : ascii) :
  is_hex_digit c = true ->
  isspace c = false /\ Ascii.eqb c "-" = false /\ Ascii.eqb c "+" = false /\
  Ascii.eqb c "x" = false /\ Ascii.eqb c "X" = false.
Proof. ascii_cases c; vm_compute; intros H; try discriminate H; auto. Qed.

Lemma is_hex_digit_Some (c : ascii) :
  is_hex_digit c = true -> exists d : Z, hex2dec c = Some d /\ 0 <= d < 16.
Proof.
  unfold is_hex_digit. destruct (hex2dec c) as [d|] eqn:E; [|discriminate].
  intros _. exists d. split; [reflexivity|]. exact (hex2dec_range c d E).
Qed.

Lemma hexval_from_app (a : Z) (s1 s2 : std_string) :
  hexval_from a (s1 ++ s2) = hexval_from (hexval_from a s1) s2.
Proof. unfold hexval_from. apply fold_left_app. Qed.

Lemma hexval_from_ge (s : std_string) :
  forall a : Z, 0 <= a -> a <= hexval_from a s.
Proof.
  induction s as [|c s IH]; intros a Ha; [reflexivity|].
  change (hexval_from a (c :: s))
    with (hexval_from (a * 16 + default 0 (hex2dec c)) s).
  assert (0 <= default 0 (hex2dec c)).
  { destruct (hex2dec c) as [d|] eqn:E; [|reflexivity].
    apply hex2dec_range in E. simpl. lia. }
  etransitivity; [|apply IH]; lia.
Qed.

(** Once set, the overflow flag stays set. *)
Lemma M_extract_digits_sticky (s : std_string) :
  forall (result : Z) (sp : nat),
    snd (fst (M_extract_digits s result true sp)) = true.
Proof.
  induction s as [|c s IH]; intros result sp; [reflexivity|].
  cbn [M_extract_digits]. destruct (M_find c); [|reflexivity].
  destruct (result >? UINT_MAX / 16); apply IH.
Qed.

Lemma M_extract_digits_sep_pos (s : std_string) :
  forall (result : Z) (ov : bool) (sp : nat),
    (sp <= snd (M_extract_digits s result ov sp))%nat.
Proof.
  induction s as [|c s IH]; intros result ov sp; [reflexivity|].
  cbn [M_extract_digits]. destruct (M_find c); [|reflexivity].
  destruct (result >? UINT_MAX / 16); [apply IH|].
  etransitivity; [|apply IH]. lia.
Qed.

(** On digits only, the loop computes the number they denote and reports
    an overflow exactly when that number exceeds [UINT_MAX]. *)
Lemma M_extract_digits_spec (s : std_string) :
  Forall (fun c => is_hex_digit c = true) s ->
  forall (result : Z) (sp : nat),
    0 <= result <= UINT_MAX ->
    exists (r : Z) (ov : bool) (sp' : nat),
      M_extract_digits s result false sp = (r, ov, sp') /\
      (sp <= sp')%nat /\
      (hexval_from result s <= UINT_MAX /\ ov = false /\
       r = hexval_from result s
       \/ UINT_MAX < hexval_from result s /\ ov = true).
Proof.
  induction 1 as [|c s Hc _ IH]; intros result sp Hr.
  - exists result, false, sp. split; [reflexivity|]. split; [lia|].
    left. simpl. split; [lia|]. split; reflexivity.
  - destruct (is_hex_digit_Some c Hc) as (d & Hd & Hrange).
    cbn [M_extract_digits]. rewrite M_find_hex2dec, Hd.
    change (hexval_from result (c :: s))
      with (hexval_from (result * 16 + default 0 (hex2dec c)) s).
    rewrite Hd. change (default 0 (Some d)) with d.
    change (UINT_MAX / 16) with 268435455.
    unfold UINT_MAX in *. change (2 ^ 32 - 1) with 4294967295 in *.
    destruct (Z.gtb_spec result 268435455) as [Hbig|Hsmall].
    + pose proof (M_extract_digits_sticky s result sp) as Hst.
      pose proof (M_extract_digits_sep_pos s result true sp) as Hsp.
      destruct (M_extract_digits s result true sp) as [[r ov] sp'].
      simpl in Hst, Hsp. subst ov.
      exists r, true, sp'. split; [reflexivity|]. split; [exact Hsp|].
      right. split; [|reflexivity].
      pose proof (hexval_from_ge s (result * 16 + d)). lia.
    + unfold uint32. change (2 ^ 32) with 4294967296.
      rewrite (Z.mod_small (result * 16)) by lia.
      rewrite (Z.mod_small (result * 16 + d)) by lia.
      replace (result * 16 >? 4294967295 - d) with false
        by (symmetry; rewrite Z.gtb_ltb; apply Z.ltb_ge; lia).
      cbn [orb].
      destruct (IH (result * 16 + d) (S sp)) as (r & ov & sp' & E & Hsp & Hv);
        [lia|].
      exists r, ov, sp'. split; [exact E|]. split; [lia | exact Hv].
Qed.

(** On a string of hexadecimal digits, [tohex] is the number the digits
    denote, or [UINT_MAX] when that number does not fit in 32 bits. *)
Lemma tohex_digits (s : std_string) :
  Forall (fun c => is_hex_digit c = true) s ->
  tohex s = Z.min (hexval s) UINT_MAX.
Proof.
  intros Hs. unfold tohex, get_hex, hexval.
  destruct Hs as [|c s Hc Hs]; [reflexivity|].
  destruct (hex_digit_plain c Hc) as (Hsp & Hminus & Hplus & _).
  cbn [skipws]. rewrite Hsp, Hminus, Hplus. cbn [orb].
  destruct (is_hex_digit_Some c Hc) as (d & Hd & Hrange).
  assert (Hhead : hexval_from 0 (c :: s) = hexval_from d s).
  { change (hexval_from 0 (c :: s))
      with (hexval_from (0 * 16 + default 0 (hex2dec c)) s).
    rewrite Hd. reflexivity. }
  rewrite Hhead.
  assert (Hd32 : 0 <= d <= UINT_MAX) by (unfold UINT_MAX; lia).
  destruct (Ascii.eqb_spec c "0") as [->|Hnz].
  - assert (d = 0) as -> by (vm_compute in Hd; congruence).
    destruct Hs as [|x r2 Hx Hr2]; [reflexivity|].
    destruct (hex_digit_plain x Hx) as (_ & _ & _ & -> & ->).
    cbn [orb]. cbv iota beta.
    destruct (M_extract_digits_spec (x :: r2) (Forall_cons_2 _ _ _ Hx Hr2)
                0 1%nat Hd32) as (r & ov & sp' & -> & Hpos & Hv).
    destruct sp' as [|sp']; [lia|]. cbn [Nat.eqb andb].
    destruct Hv as [(Hle & -> & ->) | (Hgt & ->)]; lia.
  - cbv iota beta. cbn [M_extract_digits].
    rewrite M_find_hex2dec, Hd.
    change (0 >? UINT_MAX / 16) with false. cbv iota.
    change (uint32 (0 * 16)) with 0.
    replace (0 >? UINT_MAX - d) with false
      by (symmetry; rewrite Z.gtb_ltb; apply Z.ltb_ge;
          unfold UINT_MAX; lia).
    cbn [orb]. unfold uint32 at 1.
    rewrite (Z.mod_small (0 + d)) by lia. rewrite Z.add_0_l.
    destruct (M_extract_digits_spec s Hs d 1%nat Hd32)
      as (r & ov & sp' & -> & Hpos & Hv).
    destruct sp' as [|sp']; [lia|]. cbn [Nat.eqb andb].
    destruct Hv as [(Hle & -> & ->) | (Hgt & ->)]; lia.
Qed.

(** ** Flag bits *)

Lemma to_bool_land_pow2 (h n : Z) :
  0 <= n -> to_bool (Z.land h (2 ^ n)) = Z.testbit h n.
Proof.
  intros Hn. unfold to_bool.
  destruct (Z.testbit h n) eqn:E.
  - replace (Z.land h (2 ^ n)) with (2 ^ n).
    + apply negb_true_iff, Z.eqb_neq. pose proof (Z.pow_pos_nonneg 2 n). lia.
    + apply Z.bits_inj'. intros m Hm.
      rewrite Z.land_spec, Z.pow2_bits_eqb by lia.
      destruct (Z.eqb_spec n m) as [<-|_];
        [rewrite E; reflexivity | rewrite andb_false_r; reflexivity].
  - replace (Z.land h (2 ^ n)) with 0; [reflexivity|].
    apply Z.bits_inj'. intros m Hm.
    rewrite Z.land_spec, Z.pow2_bits_eqb, Z.bits_0 by lia.
    destruct (Z.eqb_spec n m) as [<-|_];
      [rewrite E; reflexivity | rewrite andb_false_r; reflexivity].
Qed.

(** The fields of the header that [toheader] builds, read off the bits of
    the decoded value; this holds for every text. *)
Lemma toheader_fields (s : std_string) :
  toheader s =
  {| id := tohex s mod 2 ^ 29;
     is_error := Z.testbit (tohex s) 29;
     is_rtr := Z.testbit (tohex s) 30;
     is_extended := Z.testbit (tohex s) 31
                    || (Nat.eqb (length s) 8 && (2 ^ 11 <=? tohex s mod 2 ^ 29)) |}.
Proof.
  unfold toheader, mkHeader.
  change ID_MASK with (Z.ones 29). change ERROR_MASK with (2 ^ 29).
  change RTR_MASK with (2 ^ 30). change EXTENDED_MASK with (2 ^ 31).
  change (Z.shiftl 1 11) with (2 ^ 11).
  rewrite Z.land_ones by lia. rewrite Z.mod_mod by lia.
  rewrite !to_bool_land_pow2 by lia. rewrite Z.geb_leb.
  f_equal.
  - destruct (Z.testbit (tohex s) 29); reflexivity.
  - destruct (Z.testbit (tohex s) 30); reflexivity.
  - destruct (Z.testbit (tohex s) 31 || _); reflexivity.
Qed.

(** C3: for a string of hexadecimal digits the decoded value is the number
    the digits denote (saturated at [UINT_MAX]); the header is extended
    exactly when bit 31 of that value is set, or the string has 8
    characters and the 29-bit identifier is at least 2^11; [is_rtr] and
    [is_error] are bits 30 and 29, and [id] is the low 29 bits. *)
Theorem toheader_of_hex (s : std_string) :
  Forall (fun c => is_hex_digit c = true) s ->
  let h := tohex s in
  h = Z.min (hexval s) UINT_MAX /\
  id (toheader s) = Z.land h (Z.ones 29) /\
  id (toheader s) = h mod 2 ^ 29 /\
  is_error (toheader s) = Z.testbit h 29 /\
  is_rtr (toheader s) = Z.testbit h 30 /\
  (is_extended (toheader s) = true <->
   Z.testbit h 31 = true \/ (length s = 8%nat /\ 2 ^ 11 <= id (toheader s))).
Proof.
  intros Hs h. subst h. rewrite toheader_fields. cbn [id is_error is_rtr is_extended].
  split; [apply tohex_digits; exact Hs|].
  split; [rewrite Z.land_ones by lia; reflexivity|].
  split; [reflexivity|]. split; [reflexivity|]. split; [reflexivity|].
  rewrite orb_true_iff, andb_true_iff, Nat.eqb_eq, Z.leb_le. reflexivity.
Qed.

Lemma toheader_of_hex_witness :
  let h := tohex (str "80001337") in
  h = Z.min (hexval (str "80001337")) UINT_MAX /\
  id (toheader (str "80001337")) = Z.land h (Z.ones 29) /\
  id (toheader (str "80001337")) = h mod 2 ^ 29 /\
  is_error (toheader (str "80001337")) = Z.testbit h 29 /\
  is_rtr (toheader (str "80001337")) = Z.testbit h 30 /\
  (is_extended (toheader (str "80001337")) = true <->
   Z.testbit h 31 = true \/
   (length (str "80001337") = 8%nat /\ 2 ^ 11 <= id (toheader (str "80001337")))).
Proof.
  apply (toheader_of_hex (str "80001337")).
  repeat constructor.
Defined.

(** ** Insertion of a hexadecimal number *)

(** With enough fuel the digit loop prepends to [buf] the digits of [v]:
    at least one, at most [fuel + 1], denoting [v]. *)
Lemma int_to_char_spec (uc : bool) (fuel : nat) :
  forall (v : Z) (buf : std_string),
    0 <= v < 16 ^ Z.of_nat (S fuel) ->
    exists digits : std_string,
      int_to_char fuel uc v buf = digits ++ buf /\
      Forall (fun c => is_hex_digit c = true) digits /\
      hexval digits = v /\
      (1 <= length digits <= S fuel)%nat.
Proof.
  induction fuel as [|fuel IH]; intros v buf Hv.
  - cbn [int_to_char]. exists [hex_lit uc (Z.land v 15)].
    assert (Z.land v 15 = v) as Hlow.
    { change 15 with (Z.ones 4). rewrite Z.land_ones by lia.
      apply Z.mod_small. change (16 ^ Z.of_nat 1) with 16 in Hv.
      change (2 ^ 4) with 16. lia. }
    rewrite Hlow. pose proof (hex_lit_nibble v uc) as Hd.
    change (16 ^ Z.of_nat 1) with 16 in Hv. specialize (Hd Hv).
    split; [reflexivity|]. split.
    + repeat constructor. unfold is_hex_digit. rewrite Hd. reflexivity.
    + split; [|simpl; lia].
      unfold hexval, hexval_from. simpl. rewrite Hd. reflexivity.
  - cbn [int_to_char].
    pose proof (lo_nibble_range v) as Hlo.
    pose proof (hex_lit_nibble _ uc Hlo) as Hd.
    assert (Hsplit : v = Z.shiftr v 4 * 16 + Z.land v 15).
    { rewrite Z.shiftr_div_pow2 by lia. change 15 with (Z.ones 4).
      rewrite Z.land_ones by lia. change (2 ^ 4) with 16.
      pose proof (Z.div_mod v 16). lia. }
    assert (Hhigh : 0 <= Z.shiftr v 4 < 16 ^ Z.of_nat (S fuel)).
    { rewrite Z.shiftr_div_pow2 by lia. change (2 ^ 4) with 16.
      split; [apply Z.div_pos; lia|].
      apply Z.div_lt_upper_bound; [lia|].
      replace (Z.of_nat (S (S fuel))) with (Z.succ (Z.of_nat (S fuel))) in Hv
        by lia.
      rewrite Z.pow_succ_r in Hv by lia. lia. }
    destruct (Z.eqb_spec (Z.shiftr v 4) 0) as [Hz|Hnz].
    + exists [hex_lit uc (Z.land v 15)].
      split; [reflexivity|]. split.
      * repeat constructor. unfold is_hex_digit. rewrite Hd. reflexivity.
      * split; [|simpl; lia].
        unfold hexval, hexval_from. simpl. rewrite Hd. simpl. lia.
    + destruct (IH (Z.shiftr v 4) (hex_lit uc (Z.land v 15) :: buf) Hhigh)
        as (digits & E & Hhex & Hval & Hlen).
      exists (digits ++ [hex_lit uc (Z.land v 15)]).
      split; [rewrite E, <- app_assoc; reflexivity|]. split.
      * apply Forall_app. split; [exact Hhex|].
        repeat constructor. unfold is_hex_digit. rewrite Hd. reflexivity.
      * split; [|rewrite length_app; simpl; lia].
        unfold hexval in *. rewrite hexval_from_app, Hval.
        unfold hexval_from. simpl. rewrite Hd. simpl. lia.
Qed.

Lemma hexval_from_zeros (n : nat) (s : std_string) :
  hexval_from 0 (replicate n "0"%char ++ s) = hexval_from 0 s.
Proof. induction n as [|n IH]; [reflexivity | exact IH]. Qed.

(** The text inserted for a 32-bit value, with or without zero fill, is
    made of digits that denote the value; with fill to width 8 it has
    exactly 8 characters. *)
Lemma put_hex_spec (uc : bool) (fill : ascii) (width : nat) (v : Z) :
  0 <= v < 2 ^ 32 ->
  (width = O \/ fill = "0"%char) ->
  Forall (fun c => is_hex_digit c = true) (put_hex uc fill width v) /\
  hexval (put_hex uc fill width v) = v /\
  (width = 8%nat -> length (put_hex uc fill width v) = 8%nat).
Proof.
  intros Hv Hfill. unfold put_hex.
  destruct (int_to_char_spec uc 7 v [] Hv) as (digits & E & Hhex & Hval & Hlen).
  rewrite app_nil_r in E. rewrite E.
  destruct Hfill as [-> | ->].
  - cbn [Nat.sub replicate app].
    split; [exact Hhex|]. split; [exact Hval | discriminate].
  - split; [|split].
    + apply Forall_app. split; [|exact Hhex].
      apply Forall_replicate. reflexivity.
    + unfold hexval. rewrite hexval_from_zeros. exact Hval.
    + intros ->. rewrite length_app, length_replicate. lia.
Qed.

(** ** Headers as text and back *)

Lemma id_high_bits (h : Header) (n : Z) :
  id_in_field h -> 29 <= n -> Z.testbit (id h) n = false.
Proof.
  intros Hf Hn. rewrite <- (Z.mod_small (id h) (2 ^ 29)) by exact Hf.
  apply Z.mod_pow2_bits_high. lia.
Qed.

Lemma fullid_testbit (h : Header) (n : Z) :
  0 <= n ->
  Z.testbit (fullid h) n =
  Z.testbit (id h) n || (is_error h && (29 =? n)) || (is_rtr h && (30 =? n))
  || (is_extended h && (31 =? n)).
Proof.
  intros Hn. unfold fullid. rewrite !Z.lor_spec.
  change ERROR_MASK with (2 ^ 29). change RTR_MASK with (2 ^ 30).
  change EXTENDED_MASK with (2 ^ 31).
  destruct (is_error h), (is_rtr h), (is_extended h);
    rewrite ?Z.pow2_bits_eqb, ?Z.bits_0 by lia; reflexivity.
Qed.

(** The value that [tostring] prints: [fullid] without the extended bit. *)
Lemma printed_value_bits (h : Header) :
  id_in_field h ->
  let v := Z.land (fullid h) (uint32 (Z.lnot EXTENDED_MASK)) in
  0 <= v < 2 ^ 31 /\
  v mod 2 ^ 29 = id h /\
  Z.testbit v 29 = is_error h /\
  Z.testbit v 30 = is_rtr h /\
  Z.testbit v 31 = false.
Proof.
  intros Hf v. subst v.
  change (uint32 (Z.lnot EXTENDED_MASK)) with (Z.ones 31).
  split; [rewrite Z.land_ones by lia; apply Z.mod_pos_bound; lia|].
  split.
  - rewrite <- Z.land_ones by lia. apply Z.bits_inj'. intros n Hn.
    rewrite !Z.land_spec, fullid_testbit by lia.
    destruct (Z.ltb_spec n 29) as [Hlt|Hge].
    + rewrite !Z.ones_spec_low by lia.
      rewrite (proj2 (Z.eqb_neq 29 n)), (proj2 (Z.eqb_neq 30 n)),
        (proj2 (Z.eqb_neq 31 n)) by lia.
      rewrite !andb_false_r, !orb_false_r, !andb_true_r. reflexivity.
    + rewrite (Z.ones_spec_high 29) by lia.
      rewrite andb_false_r. symmetry. apply id_high_bits; assumption.
  - rewrite !Z.land_spec, !fullid_testbit by lia.
    rewrite !(id_high_bits h) by (assumption || lia).
    change (Z.testbit (Z.ones 31) 29) with true.
    change (Z.testbit (Z.ones 31) 30) with true.
    change (Z.testbit (Z.ones 31) 31) with false.
    cbn [Z.eqb Pos.eqb orb].
    rewrite !andb_false_r, !andb_true_r, !orb_false_r.
    split; [reflexivity|]. split; reflexivity.
Qed.

(** C1, as the code has it: for a valid header, parsing its text gives
    back the identifier and the error and RTR flags; the extended flag comes
    back only when the identifier is at least 2^11, because the text does
    not carry the extended bit and [toheader] infers it from the length
    and the identifier.  So the round trip is exact for every valid
    standard header and for every extended header with an identifier of at
    least 2^11, for either case flag. *)
Theorem toheader_tostring (h : Header) (lc : bool) :
  id_in_field h -> isValid h = true ->
  toheader (tostring h lc) =
  {| id := id h; is_error := is_error h; is_rtr := is_rtr h;
     is_extended := is_extended h && (2 ^ 11 <=? id h) |} /\
  (is_extended h = false \/ 2 ^ 11 <= id h -> toheader (tostring h lc) = h).
Proof.
  intros Hf Hvalid.
  destruct (printed_value_bits h Hf) as (Hv & Hid & Herr & Hrtr & Hext).
  remember (Z.land (fullid h) (uint32 (Z.lnot EXTENDED_MASK))) as v eqn:Ev.
  assert (Hput : forall fill width, width = O \/ fill = "0"%char ->
            tohex (put_hex (negb lc) fill width v) = v /\
            (width = 8%nat ->
             length (put_hex (negb lc) fill width v) = 8%nat)).
  { intros fill width Hfill.
    destruct (put_hex_spec (negb lc) fill width v) as (Hhex & Hval & Hlen);
      [lia | exact Hfill |].
    split; [|exact Hlen].
    rewrite (tohex_digits _ Hhex), Hval. unfold UINT_MAX. clear -Hv. lia. }
  assert (E : toheader (tostring h lc) =
              {| id := id h; is_error := is_error h; is_rtr := is_rtr h;
                 is_extended := is_extended h && (2 ^ 11 <=? id h) |}).
  { rewrite toheader_fields. unfold tostring. rewrite <- Ev.
    unfold isValid in Hvalid.
    destruct (is_extended h) eqn:Eext.
    - destruct (Hput "0"%char 8%nat) as [-> Hlen]; [right; reflexivity|].
      rewrite Hlen by reflexivity.
      rewrite Hid, Herr, Hrtr, Hext. reflexivity.
    - destruct (Hput " "%char O) as [-> _]; [left; reflexivity|].
      rewrite Hid, Herr, Hrtr, Hext.
      change (Z.shiftl 1 11) with (2 ^ 11) in Hvalid.
      apply Z.ltb_lt in Hvalid.
      replace (2 ^ 11 <=? id h) with false by (symmetry; apply Z.leb_gt; lia).
      rewrite andb_false_r. reflexivity. }
  split; [exact E|].
  intros Hround. rewrite E. destruct h as [i e r x]. cbn in *.
  f_equal. destruct Hround as [-> | Hge]; [reflexivity|].
  apply Z.leb_le in Hge. rewrite Hge. apply andb_true_r.
Qed.

Lemma toheader_tostring_witness :
  toheader (tostring (ExtendedHeader 0x1337 true) false) =
  {| id := 0x1337; is_error := false; is_rtr := true;
     is_extended := true && (2 ^ 11 <=? 0x1337) |} /\
  (true = false \/ 2 ^ 11 <= 0x1337 ->
   toheader (tostring (ExtendedHeader 0x1337 true) false)
   = ExtendedHeader 0x1337 true).
Proof.
  apply (toheader_tostring (ExtendedHeader 0x1337 true) false).
  - vm_compute. split; [discriminate | reflexivity].
  - reflexivity.
Defined.

(** C1, as stated, fails: the extended header with identifier 0x7FF is
    valid, its text is ["000007FF"], and that text parses to a standard
    header. *)
Lemma toheader_tostring_extended_7FF :
  isValid (ExtendedHeader 0x7FF false) = true /\
  tostring (ExtendedHeader 0x7FF false) false = str "000007FF" /\
  toheader (tostring (ExtendedHeader 0x7FF false) false)
  = MsgHeader 0x7FF false /\
  toheader (tostring (ExtendedHeader 0x7FF false) false)
  <> ExtendedHeader 0x7FF false.
Proof. repeat split. discriminate. Qed.

(** * Further properties of the header, the codec and the parsers *)

(** ** The packed identifier *)

Lemma fullid_range (h : Header) :
  id_in_field h -> 0 <= fullid h < 2 ^ 32.
Proof.
  intros Hf.
  assert (E : fullid h mod 2 ^ 32 = fullid h).
  { apply Z.bits_inj'. intros n Hn.
    destruct (Z.ltb_spec n 32) as [Hlt|Hge].
    - apply Z.mod_pow2_bits_low. lia.
    - rewrite Z.mod_pow2_bits_high by lia.
      rewrite fullid_testbit by lia.
      rewrite (id_high_bits h n Hf) by lia.
      rewrite (proj2 (Z.eqb_neq 29 n)), (proj2 (Z.eqb_neq 30 n)),
        (proj2 (Z.eqb_neq 31 n)) by lia.
      rewrite !andb_false_r. reflexivity. }
  rewrite <- E. apply Z.mod_pos_bound. lia.
Qed.

Lemma fullid_bits (h : Header) :
  id_in_field h ->
  fullid h mod 2 ^ 29 = id h /\
  Z.testbit (fullid h) 29 = is_error h /\
  Z.testbit (fullid h) 30 = is_rtr h /\
  Z.testbit (fullid h) 31 = is_extended h.
Proof.
  intros Hf. split.
  - rewrite <- Z.land_ones by lia. apply Z.bits_inj'. intros n Hn.
    rewrite Z.land_spec, fullid_testbit by lia.
    destruct (Z.ltb_spec n 29) as [Hlt|Hge].
    + rewrite Z.ones_spec_low by lia.
      rewrite (proj2 (Z.eqb_neq 29 n)), (proj2 (Z.eqb_neq 30 n)),
        (proj2 (Z.eqb_neq 31 n)) by lia.
      rewrite !andb_false_r, !orb_false_r, andb_true_r. reflexivity.
    + rewrite Z.ones_spec_high by lia.
      rewrite andb_false_r. symmetry. apply id_high_bits; assumption.
  - rewrite !fullid_testbit by lia.
    rewrite !(id_high_bits h) by (assumption || lia).
    cbn [Z.eqb Pos.eqb orb].
    rewrite !andb_false_r, !andb_true_r, !orb_false_r.
    split; [reflexivity|]. split; reflexivity.
Qed.

(** X1: the packed identifier of a header fits in 32 bits; its low 29
    bits are the identifier, and bits 29, 30 and 31 are the error, RTR and
    extended flags. *)
Theorem fullid_layout (h : Header) :
  id_in_field h ->
  0 <= fullid h < 2 ^ 32 /\
  fullid h mod 2 ^ 29 = id h /\
  Z.testbit (fullid h) 29 = is_error h /\
  Z.testbit (fullid h) 30 = is_rtr h /\
  Z.testbit (fullid h) 31 = is_extended h.
Proof.
  intros Hf. split; [apply fullid_range; exact Hf|].
  apply fullid_bits. exact Hf.
Qed.

Lemma fullid_layout_witness :
  0 <= fullid (mkHeader 0x123 true false true) < 2 ^ 32 /\
  fullid (mkHeader 0x123 true false true) mod 2 ^ 29 = 0x123 /\
  Z.testbit (fullid (mkHeader 0x123 true false true)) 29 = true /\
  Z.testbit (fullid (mkHeader 0x123 true false true)) 30 = false /\
  Z.testbit (fullid (mkHeader 0x123 true false true)) 31 = true.
Proof.
  apply (fullid_layout (mkHeader 0x123 true false true)).
  vm_compute. split; [discriminate | reflexivity].
Defined.

Lemma fullid_determines (h1 h2 : Header) :
  id_in_field h1 -> id_in_field h2 -> fullid h1 = fullid h2 -> h1 = h2.
Proof.
  intros Hf1 Hf2 E.
  destruct (fullid_bits h1 Hf1) as (Hi1 & He1 & Hr1 & Hx1).
  destruct (fullid_bits h2 Hf2) as (Hi2 & He2 & Hr2 & Hx2).
  rewrite E in Hi1, He1, Hr1, Hx1.
  destruct h1, h2; cbn in *. congruence.
Qed.

(** X2: two headers with the same packed identifier are the same header:
    [fullid] is a unique tag across all header kinds. *)
Theorem fullid_inj (h1 h2 : Header) :
  id_in_field h1 -> id_in_field h2 -> fullid h1 = fullid h2 -> h1 = h2.
Proof. apply fullid_determines. Qed.

Lemma fullid_inj_witness :
  mkHeader 0x123 false true false = mkHeader (0x123 + 2 ^ 29) false true false.
Proof.
  apply (fullid_inj (mkHeader 0x123 false true false)
                    (mkHeader (0x123 + 2 ^ 29) false true false)).
  - vm_compute. split; [discriminate | reflexivity].
  - vm_compute. split; [discriminate | reflexivity].
  - reflexivity.
Defined.

(** X3: every error header has the key [ERROR_MASK], whatever its
    identifier and other flags, and no other header has it; two headers
    that are not error headers have the same key only if they are equal. *)
Theorem key_classes (h1 h2 : Header) :
  id_in_field h1 -> id_in_field h2 ->
  (key h1 = ERROR_MASK <-> is_error h1 = true) /\
  (key h1 = key h2 <->
   (is_error h1 = true /\ is_error h2 = true) \/
   (is_error h1 = false /\ is_error h2 = false /\ h1 = h2)).
Proof.
  intros Hf1 Hf2.
  assert (Hk : forall h, id_in_field h ->
                 (key h = ERROR_MASK <-> is_error h = true)).
  { intros h Hf. unfold key. destruct (is_error h) eqn:Ee.
    - split; reflexivity.
    - split; [|discriminate]. intros E.
      destruct (fullid_bits h Hf) as (_ & He & _).
      rewrite E, Ee in He. discriminate He. }
  split; [apply Hk; exact Hf1|].
  split.
  - intros E. destruct (is_error h1) eqn:E1.
    + left. split; [reflexivity|]. apply (Hk h2 Hf2).
      rewrite <- E. apply (Hk h1 Hf1). exact E1.
    + right. split; [reflexivity|].
      destruct (is_error h2) eqn:E2.
      * apply (Hk h2 Hf2) in E2. rewrite <- E in E2.
        apply (Hk h1 Hf1) in E2. congruence.
      * split; [reflexivity|]. unfold key in E. rewrite E1, E2 in E.
        apply fullid_determines; assumption.
  - intros [[E1 E2] | (E1 & E2 & ->)]; [|reflexivity].
    apply (Hk h1 Hf1) in E1. apply (Hk h2 Hf2) in E2. congruence.
Qed.

Lemma key_classes_witness :
  (key (ErrorHeader 0x10) = ERROR_MASK <-> is_error (ErrorHeader 0x10) = true) /\
  (key (ErrorHeader 0x10) = key (mkHeader 0x7 true true true) <->
   (is_error (ErrorHeader 0x10) = true /\
    is_error (mkHeader 0x7 true true true) = true) \/
   (is_error (ErrorHeader 0x10) = false /\
    is_error (mkHeader 0x7 true true true) = false /\
    ErrorHeader 0x10 = mkHeader 0x7 true true true)).
Proof.
  apply (key_classes (ErrorHeader 0x10) (mkHeader 0x7 true true true)).
  - vm_compute. split; [discriminate | reflexivity].
  - vm_compute. split; [discriminate | reflexivity].
Defined.

(** ** Validity of parsed headers *)

Lemma tohex_id_lt (s : std_string) : 0 <= tohex s mod 2 ^ 29 < 2 ^ 29.
Proof. apply Z.mod_pos_bound. lia. Qed.

(** X4: the header parsed from a text is invalid exactly when the decoded
    value has no extended bit, the text does not have 8 characters, and the
    identifier is at least 2^11.  In particular every text of 8 characters
    parses to a valid header. *)
Theorem toheader_invalid_iff (s : std_string) :
  (isValid (toheader s) = false <->
   Z.testbit (tohex s) 31 = false /\ length s <> 8%nat /\
   2 ^ 11 <= id (toheader s)) /\
  (length s = 8%nat -> isValid (toheader s) = true).
Proof.
  rewrite toheader_fields. unfold isValid. cbn [id is_extended].
  change (Z.shiftl 1 29) with (2 ^ 29). change (Z.shiftl 1 11) with (2 ^ 11).
  pose proof (tohex_id_lt s) as Hid.
  destruct (Z.testbit (tohex s) 31); cbn [orb].
  { split.
    - split; [|intros [? _]; discriminate].
      intros H. apply Z.ltb_ge in H. lia.
    - intros _. apply Z.ltb_lt. lia. }
  destruct (Nat.eqb_spec (length s) 8) as [Hlen|Hlen]; cbn [andb].
  - destruct (Z.leb_spec (2 ^ 11) (tohex s mod 2 ^ 29)) as [Hge|Hlt].
    + split.
      * split; [|intros (_ & Hne & _); contradiction].
        intros H. apply Z.ltb_ge in H. lia.
      * intros _. apply Z.ltb_lt. lia.
    + split.
      * split; [|intros (_ & Hne & _); contradiction].
        intros H. apply Z.ltb_ge in H. lia.
      * intros _. apply Z.ltb_lt. lia.
  - split; [|intros; contradiction].
    rewrite Z.ltb_ge. split.
    + intros H. split; [reflexivity|]. split; assumption.
    + intros (_ & _ & H). exact H.
Qed.

(** ** Single digits and single bytes *)

(** X5: for a nibble [d], [dec2hex] succeeds and [hex2dec] reads the digit
    back as [d], in either case; for a larger value [dec2hex] fails and
    leaves ['?'].  Conversely a character that [hex2dec] accepts is
    normalised by [dec2hex] to a digit with the same value. *)
Theorem dec2hex_hex2dec (d : Z) (lc : bool) :
  0 <= d ->
  (d < 16 ->
   fst (dec2hex d lc) = true /\ hex2dec (snd (dec2hex d lc)) = Some d /\
   is_digit_of_case lc (snd (dec2hex d lc)) = true) /\
  (16 <= d -> dec2hex d lc = (false, "?"%char)) /\
  (forall c : ascii, hex2dec c = Some d ->
     hex2dec (snd (dec2hex d lc)) = Some d).
Proof.
  intros Hd. split; [|split].
  - intros Hlt. assert (H : 0 <= d < 16) by lia.
    split; [apply dec2hex_nibble; exact H|].
    split; [apply dec2hex_nibble; exact H|].
    by_nibble d H; destruct lc; reflexivity.
  - intros Hge. unfold dec2hex.
    replace (d <? 10) with false by (symmetry; apply Z.ltb_ge; lia).
    replace (d <? 16) with false by (symmetry; apply Z.ltb_ge; lia).
    reflexivity.
  - intros c Hc. apply dec2hex_nibble. exact (hex2dec_range c d Hc).
Qed.

Lemma dec2hex_hex2dec_witness :
  (11 < 16 ->
   fst (dec2hex 11 true) = true /\ hex2dec (snd (dec2hex 11 true)) = Some 11 /\
   is_digit_of_case true (snd (dec2hex 11 true)) = true) /\
  (16 <= 11 -> dec2hex 11 true = (false, "?"%char)) /\
  (forall c : ascii, hex2dec c = Some 11 ->
     hex2dec (snd (dec2hex 11 true)) = Some 11).
Proof. apply (dec2hex_hex2dec 11 true). lia. Defined.

Lemma byte_split (d : Z) :
  0 <= d < 256 ->
  uint8 (Z.shiftr d 4) * 16 + Z.land d 15 = d /\
  (uint8 (Z.shiftr d 4) = 0 <-> d < 16).
Proof.
  intros Hd. unfold uint8. rewrite Z.shiftr_div_pow2 by lia.
  change 15 with (Z.ones 4). rewrite Z.land_ones by lia.
  change (2 ^ 4) with 16. change (2 ^ 8) with 256.
  assert (0 <= d / 16 < 16)
    by (split; [apply Z.div_pos | apply Z.div_lt_upper_bound]; lia).
  rewrite (Z.mod_small (d / 16)) by lia.
  pose proof (Z.div_mod d 16). pose proof (Z.mod_pos_bound d 16).
  split; [lia|]. split; intros; [lia|].
  apply Z.div_small. lia.
Qed.

(** X6: the text [byte2hex] writes for a byte denotes that byte, with or
    without padding and in either case; it has one digit when the byte is
    below 16 and no padding is asked for, two digits otherwise. *)
Theorem byte2hex_value (d : Z) (pad lc : bool) :
  0 <= d < 256 ->
  hexval (byte2hex d pad lc) = d /\
  Forall (fun c => is_digit_of_case lc c = true) (byte2hex d pad lc) /\
  length (byte2hex d pad lc) = if pad || (16 <=? d) then 2%nat else 1%nat.
Proof.
  intros Hd.
  destruct (byte_split d Hd) as [Hsplit Hzero].
  pose proof (hi_nibble_range d Hd) as Hhi.
  pose proof (lo_nibble_range d) as Hlo.
  destruct (dec2hex_nibble _ lc Hhi) as [_ Ehi].
  destruct (dec2hex_nibble _ lc Hlo) as [_ Elo].
  assert (Chi : is_digit_of_case lc (snd (dec2hex (uint8 (Z.shiftr d 4)) lc))
                = true).
  { revert Hhi. generalize (uint8 (Z.shiftr d 4)). intros x Hx.
    by_nibble x Hx; destruct lc; reflexivity. }
  assert (Clo : is_digit_of_case lc (snd (dec2hex (Z.land d 15) lc)) = true).
  { revert Hlo. generalize (Z.land d 15). intros x Hx.
    by_nibble x Hx; destruct lc; reflexivity. }
  unfold byte2hex.
  destruct (Z.eqb_spec (uint8 (Z.shiftr d 4)) 0) as [Hz|Hnz];
    destruct pad; cbn [negb orb app].
  - split; [|split].
    + unfold hexval, hexval_from. cbn [fold_left]. rewrite Ehi, Elo.
      cbn [default]. unfold Datatypes.id. lia.
    + repeat constructor; assumption.
    + reflexivity.
  - split; [|split].
    + unfold hexval, hexval_from. cbn [fold_left]. rewrite Elo.
      cbn [default]. unfold Datatypes.id. lia.
    + repeat constructor; assumption.
    + replace (16 <=? d) with false
        by (symmetry; apply Z.leb_gt; apply Hzero; exact Hz).
      reflexivity.
  - split; [|split].
    + unfold hexval, hexval_from. cbn [fold_left]. rewrite Ehi, Elo.
      cbn [default]. unfold Datatypes.id. lia.
    + repeat constructor; assumption.
    + reflexivity.
  - split; [|split].
    + unfold hexval, hexval_from. cbn [fold_left]. rewrite Ehi, Elo.
      cbn [default]. unfold Datatypes.id. lia.
    + repeat constructor; assumption.
    + replace (16 <=? d) with true; [reflexivity|].
      symmetry. apply Z.leb_le.
      destruct (Z.lt_ge_cases d 16) as [Hlt|Hge]; [|exact Hge].
      apply Hzero in Hlt. contradiction.
Qed.

Lemma byte2hex_value_witness :
  hexval (byte2hex 0x0A false true) = 0x0A /\
  Forall (fun c => is_digit_of_case true c = true) (byte2hex 0x0A false true) /\
  length (byte2hex 0x0A false true)
  = if false || (16 <=? 0x0A) then 2%nat else 1%nat.
Proof. apply (byte2hex_value 0x0A false true). lia. Defined.

(** ** Success of hex2buffer *)

(** A run of the loop over digits only succeeds, stores the byte of every
    pair it visits and leaves the other cells alone. *)
Lemma hex2buffer_loop_ok (n : nat) :
  forall (i : nat) (inp out : std_string),
    (forall k : nat, (2 * i <= k < 2 * (i + n))%nat ->
       is_hex_digit (char_at inp k) = true) ->
    (i + n <= length out)%nat ->
    exists out' : std_string,
      hex2buffer_loop n i inp out = (true, out') /\
      length out' = length out /\
      (forall j : nat, (i <= j < i + n)%nat ->
         exists hi lo : Z,
           hex2dec (char_at inp (2 * j)) = Some hi /\
           hex2dec (char_at inp (2 * j + 1)) = Some lo /\
           out' !! j = Some (chr (Z.lor (Z.shiftl hi 4) lo))) /\
      (forall j : nat, (j < i \/ i + n <= j)%nat -> out' !! j = out !! j).
Proof.
  induction n as [|n IH]; intros i inp out Hhex Hlen.
  - exists out. split; [reflexivity|]. split; [reflexivity|].
    split; [intros j Hj; lia | reflexivity].
  - cbn [hex2buffer_loop].
    destruct (is_hex_digit_Some _ (Hhex (2 * i)%nat ltac:(lia)))
      as (hi & Hhi & _).
    destruct (is_hex_digit_Some _ (Hhex (2 * i + 1)%nat ltac:(lia)))
      as (lo & Hlo & _).
    rewrite Hhi, Hlo.
    destruct (IH (S i) inp (<[i := chr (Z.lor (Z.shiftl hi 4) lo)]> out))
      as (out' & E & Hl & Hdone & Hrest).
    { intros k Hk. apply Hhex. lia. }
    { rewrite length_insert. lia. }
    rewrite length_insert in Hl.
    exists out'. split; [exact E|]. split; [exact Hl|]. split.
    + intros j Hj. destruct (Nat.eq_dec j i) as [->|Hne].
      * exists hi, lo. split; [exact Hhi|]. split; [exact Hlo|].
        rewrite Hrest by lia. apply list_lookup_insert_eq. lia.
      * apply Hdone. lia.
    + intros j Hj. rewrite Hrest by lia.
      apply list_lookup_insert_ne. lia.
Qed.

Lemma padded_input_length (s : std_string) :
  (2 * Nat.shiftr (length (padded_input s)) 1)%nat = length (padded_input s) /\
  Nat.shiftr (length (padded_input s)) 1 = ((length s + 1) / 2)%nat.
Proof.
  unfold padded_input. rewrite !Nat.shiftr_div_pow2.
  change (2 ^ 1)%nat with 2%nat.
  destruct (Nat.odd (length s)) eqn:E.
  - apply Nat.odd_spec in E as [m Hm].
    cbn [str list_ascii_of_string app length]. rewrite Hm.
    replace (S (2 * m + 1)) with ((m + 1) * 2)%nat by lia.
    replace (2 * m + 1 + 1)%nat with ((m + 1) * 2)%nat by lia.
    rewrite Nat.div_mul by lia. lia.
  - rewrite <- Nat.negb_even in E. apply negb_false_iff in E.
    apply Nat.even_spec in E as [m Hm]. rewrite Hm.
    replace (2 * m)%nat with (m * 2)%nat by lia.
    rewrite Nat.div_mul by lia.
    rewrite Nat.div_add_l by lia. change (1 / 2)%nat with O. lia.
Qed.

(** Unless the length is odd and no padding is asked for, [hex2buffer]
    runs its loop over the padded input and the resized buffer. *)
Lemma hex2buffer_runs (out s : std_string) (pad : bool) :
  Nat.odd (length s) = false \/ pad = true ->
  hex2buffer out s pad =
  hex2buffer_loop (Nat.shiftr (length (padded_input s)) 1) 0 (padded_input s)
    (resize (Nat.shiftr (length (padded_input s)) 1) NUL out).
Proof.
  intros H. unfold hex2buffer, padded_input. rewrite <- odd_mod2.
  destruct (Nat.odd (length s)) eqn:E.
  - destruct H as [H | ->]; [discriminate|].
    rewrite length_resize. reflexivity.
  - rewrite length_resize. reflexivity.
Qed.

Lemma padded_input_digits (s : std_string) :
  Forall (fun c => is_hex_digit c = true) s ->
  forall k : nat, (k < length (padded_input s))%nat ->
    is_hex_digit (char_at (padded_input s) k) = true.
Proof.
  intros Hs k Hk.
  assert (Hp : Forall (fun c => is_hex_digit c = true) (padded_input s)).
  { unfold padded_input. destruct (Nat.odd (length s)); [|exact Hs].
    apply Forall_app. split; [repeat constructor | exact Hs]. }
  destruct (lookup_lt_is_Some_2 _ _ Hk) as [c Hc].
  unfold char_at. rewrite (nth_lookup_Some _ _ _ _ Hc).
  exact (proj1 (Forall_lookup _ _) Hp k c Hc).
Qed.

Lemma hex2buffer_bad_char (out s : std_string) (pad : bool) :
  Exists (fun c => is_hex_digit c = false) s ->
  fst (hex2buffer out s pad) = false.
Proof.
  intros H.
  destruct (Nat.odd (length s)) eqn:Eodd; [destruct pad|].
  - rewrite hex2buffer_runs by (right; reflexivity).
    destruct (padded_input_length s) as [Hlen _].
    apply Exists_exists in H as (c & Hin & Hc).
    apply list_elem_of_lookup_1 in Hin as [k Hk].
    pose proof (lookup_lt_Some _ _ _ Hk) as Hlt.
    apply (hex2buffer_loop_bad_char _ 0 _ _ (S k)).
    + rewrite Nat.add_0_l, Hlen. unfold padded_input. rewrite Eodd.
      cbn [str list_ascii_of_string app length]. lia.
    + unfold padded_input, char_at. rewrite Eodd.
      cbn [str list_ascii_of_string app nth].
      rewrite (nth_lookup_Some _ _ _ _ Hk).
      unfold is_hex_digit in Hc. destruct (hex2dec c); [discriminate|].
      reflexivity.
  - apply hex2buffer_malformed. left. exact Eodd.
  - rewrite hex2buffer_runs by (left; exact Eodd).
    destruct (padded_input_length s) as [Hlen _].
    apply Exists_exists in H as (c & Hin & Hc).
    apply list_elem_of_lookup_1 in Hin as [k Hk].
    pose proof (lookup_lt_Some _ _ _ Hk) as Hlt.
    apply (hex2buffer_loop_bad_char _ 0 _ _ k).
    + rewrite Nat.add_0_l, Hlen. unfold padded_input. rewrite Eodd. lia.
    + unfold padded_input, char_at. rewrite Eodd.
      rewrite (nth_lookup_Some _ _ _ _ Hk).
      unfold is_hex_digit in Hc. destruct (hex2dec c); [discriminate|].
      reflexivity.
Qed.

(** What a successful decode leaves in the buffer. *)
Lemma hex2buffer_ok (out s : std_string) (pad : bool) :
  Nat.odd (length s) = false \/ pad = true ->
  Forall (fun c => is_hex_digit c = true) s ->
  exists out' : std_string,
    hex2buffer out s pad = (true, out') /\
    length out' = ((length s + 1) / 2)%nat /\
    (forall j : nat, (j < length out')%nat ->
       exists hi lo : Z,
         hex2dec (char_at (padded_input s) (2 * j)) = Some hi /\
         hex2dec (char_at (padded_input s) (2 * j + 1)) = Some lo /\
         out' !! j = Some (chr (Z.lor (Z.shiftl hi 4) lo))).
Proof.
  intros Hpad Hs. rewrite (hex2buffer_runs _ _ _ Hpad).
  destruct (padded_input_length s) as [Hlen Hhalf].
  destruct (hex2buffer_loop_ok (Nat.shiftr (length (padded_input s)) 1) 0
              (padded_input s)
              (resize (Nat.shiftr (length (padded_input s)) 1) NUL out))
    as (out' & E & Hl & Hdone & _).
  { intros k Hk. apply padded_input_digits; [exact Hs | lia]. }
  { rewrite length_resize. lia. }
  rewrite length_resize in Hl.
  exists out'. split; [exact E|]. split; [lia|].
  intros j Hj. apply Hdone. lia.
Qed.

Lemma hex2buffer_true_inv (out s : std_string) (pad : bool) :
  fst (hex2buffer out s pad) = true ->
  (Nat.odd (length s) = false \/ pad = true) /\
  Forall (fun c => is_hex_digit c = true) s.
Proof.
  intros Hok. split.
  - destruct (Nat.odd (length s)) eqn:Eodd; [|left; reflexivity].
    destruct pad; [right; reflexivity|].
    rewrite hex2buffer_malformed in Hok by (left; exact Eodd).
    discriminate Hok.
  - destruct (decide (Forall (fun c => is_hex_digit c = true) s))
      as [H|H]; [exact H|].
    apply not_Forall_Exists in H; [|intros c; apply _].
    rewrite hex2buffer_bad_char in Hok; [discriminate Hok|].
    eapply Exists_impl; [exact H|].
    intros c Hc. cbn in Hc. destruct (is_hex_digit c); congruence.
Qed.

(** X7: [hex2buffer] succeeds exactly when every character is a
    hexadecimal digit and the length is even or padding is asked for. *)
Theorem hex2buffer_success_iff (out s : std_string) (pad : bool) :
  fst (hex2buffer out s pad) = true <->
  (Nat.odd (length s) = false \/ pad = true) /\
  Forall (fun c => is_hex_digit c = true) s.
Proof.
  split; [apply hex2buffer_true_inv|].
  intros [Hpad Hs].
  destruct (hex2buffer_ok out s pad Hpad Hs) as (out' & -> & _).
  reflexivity.
Qed.

(** X8: when [hex2buffer] succeeds, nothing of the old buffer is left:
    the buffer holds one byte per pair of characters of the (padded)
    input, and byte [j] is sixteen times the first digit of pair [j] plus
    the second. *)
Theorem hex2buffer_decoded (out s : std_string) (pad : bool)
  (out' : std_string) :
  hex2buffer out s pad = (true, out') ->
  length out' = ((length s + 1) / 2)%nat /\
  (forall j : nat, (j < length out')%nat ->
     exists hi lo : Z,
       hex2dec (char_at (padded_input s) (2 * j)) = Some hi /\
       hex2dec (char_at (padded_input s) (2 * j + 1)) = Some lo /\
       out' !! j = Some (chr (hi * 16 + lo))).
Proof.
  intros E.
  assert (Hcond : (Nat.odd (length s) = false \/ pad = true) /\
                  Forall (fun c => is_hex_digit c = true) s).
  { apply (hex2buffer_true_inv out). rewrite E. reflexivity. }
  destruct Hcond as [Hpad Hs].
  destruct (hex2buffer_ok out s pad Hpad Hs) as (out2 & E2 & Hl & Hbytes).
  rewrite E in E2. injection E2 as <-.
  split; [exact Hl|].
  intros j Hj. destruct (Hbytes j Hj) as (hi & lo & Hhi & Hlo & Hj').
  exists hi, lo. split; [exact Hhi|]. split; [exact Hlo|].
  rewrite Hj'. f_equal. f_equal.
  pose proof (hex2dec_range _ _ Hhi) as Rhi.
  pose proof (hex2dec_range _ _ Hlo) as Rlo.
  clear -Rhi Rlo. by_nibble hi Rhi; by_nibble lo Rlo; reflexivity.
Qed.

Lemma hex2buffer_decoded_witness :
  length [chr 0x01; chr 0xAF] = ((length (str "1aF") + 1) / 2)%nat /\
  (forall j : nat, (j < length [chr 0x01; chr 0xAF])%nat ->
     exists hi lo : Z,
       hex2dec (char_at (padded_input (str "1aF")) (2 * j)) = Some hi /\
       hex2dec (char_at (padded_input (str "1aF")) (2 * j + 1)) = Some lo /\
       [chr 0x01; chr 0xAF] !! j = Some (chr (hi * 16 + lo))).
Proof.
  apply (hex2buffer_decoded (str "zz") (str "1aF") true [chr 0x01; chr 0xAF]).
  reflexivity.
Defined.

(** ** Encoding what was decoded *)

Lemma digit_of_case_canonical (lc : bool) (c : ascii) :
  is_digit_of_case lc c = true ->
  match hex2dec c with
  | Some d => snd (dec2hex d lc) = c
  | None => False
  end.
Proof.
  ascii_cases c; destruct lc; vm_compute; intros H;
    (discriminate H || reflexivity).
Qed.

Lemma buffer2hex_lookup (b : std_string) (lc : bool) (j : nat) (c : ascii) :
  b !! j = Some c ->
  buffer2hex b lc !! (2 * j)%nat
  = Some (snd (dec2hex (uint8 (Z.shiftr (ord c) 4)) lc)) /\
  buffer2hex b lc !! (2 * j + 1)%nat
  = Some (snd (dec2hex (Z.land (ord c) 15) lc)).
Proof.
  rewrite buffer2hex_flat.
  revert j. induction b as [|x b IH]; intros j Hj; [discriminate|].
  cbn [flat_map]. rewrite byte2hex_pad. cbn [app].
  destruct j as [|j].
  - injection Hj as ->. split; reflexivity.
  - replace (2 * S j)%nat with (S (S (2 * j))) by lia.
    replace (S (S (2 * j)) + 1)%nat with (S (S (2 * j + 1))) by lia.
    cbn [lookup list_lookup]. apply IH. exact Hj.
Qed.

Lemma nibbles_of_byte (hi lo : Z) :
  0 <= hi < 16 -> 0 <= lo < 16 ->
  uint8 (Z.shiftr (ord (chr (Z.lor (Z.shiftl hi 4) lo))) 4) = hi /\
  Z.land (ord (chr (Z.lor (Z.shiftl hi 4) lo))) 15 = lo.
Proof.
  intros Hhi Hlo. by_nibble hi Hhi; by_nibble lo Hlo; split; reflexivity.
Qed.

(** X9: text of even length made of the digits of one case decodes to
    bytes whose encoding in that case is the text again. *)
Theorem buffer2hex_hex2buffer (s : std_string) (lc pad : bool)
  (out : std_string) :
  Nat.odd (length s) = false ->
  Forall (fun c => is_digit_of_case lc c = true) s ->
  exists b : std_string,
    hex2buffer out s pad = (true, b) /\
    (2 * length b)%nat = length s /\
    buffer2hex b lc = s.
Proof.
  intros Heven Hs.
  assert (Hhex : Forall (fun c => is_hex_digit c = true) s).
  { eapply Forall_impl; [exact Hs|]. intros c Hc. cbn beta.
    apply digit_of_case_canonical in Hc. unfold is_hex_digit.
    destruct (hex2dec c); [reflexivity | contradiction]. }
  destruct (hex2buffer_ok out s pad (or_introl Heven) Hhex)
    as (b & E & Hl & Hbytes).
  assert (Hpad : padded_input s = s)
    by (unfold padded_input; rewrite Heven; reflexivity).
  rewrite Hpad in Hbytes.
  assert (Hlen : (2 * length b)%nat = length s).
  { destruct (padded_input_length s) as [H2 Hh]. rewrite Hpad in H2, Hh.
    rewrite Hl, <- Hh. exact H2. }
  exists b. split; [exact E|]. split; [exact Hlen|].
  apply list_eq. intros k.
  destruct (Nat.lt_ge_cases k (length s)) as [Hk|Hk].
  2:{ rewrite !lookup_ge_None_2; [reflexivity | lia |].
      rewrite buffer2hex_length. lia. }
  assert (Hcell : forall i : nat, (i < length s)%nat ->
            forall d : Z, hex2dec (char_at s i) = Some d ->
              s !! i = Some (snd (dec2hex d lc))).
  { intros i Hi d Hd.
    destruct (lookup_lt_is_Some_2 _ _ Hi) as [c Hc].
    pose proof (proj1 (Forall_lookup _ _) Hs i c Hc) as Hcan.
    apply digit_of_case_canonical in Hcan.
    unfold char_at in Hd. rewrite (nth_lookup_Some _ _ _ _ Hc) in Hd.
    rewrite Hd in Hcan. rewrite Hc, Hcan. reflexivity. }
  destruct (Nat.Even_or_Odd k) as [[j ->]|[j ->]].
  - destruct (Hbytes j ltac:(lia)) as (hi & lo & Hhi & Hlo & Hb).
    destruct (buffer2hex_lookup b lc j _ Hb) as [-> _].
    destruct (nibbles_of_byte hi lo (hex2dec_range _ _ Hhi)
                (hex2dec_range _ _ Hlo)) as [-> _].
    symmetry. apply Hcell; [lia | exact Hhi].
  - destruct (Hbytes j ltac:(lia)) as (hi & lo & Hhi & Hlo & Hb).
    destruct (buffer2hex_lookup b lc j _ Hb) as [_ ->].
    destruct (nibbles_of_byte hi lo (hex2dec_range _ _ Hhi)
                (hex2dec_range _ _ Hlo)) as [_ ->].
    symmetry. apply Hcell; [lia | exact Hlo].
Qed.

Lemma buffer2hex_hex2buffer_witness :
  exists b : std_string,
    hex2buffer [] (str "DEADBEEF") false = (true, b) /\
    (2 * length b)%nat = length (str "DEADBEEF") /\
    buffer2hex b false = str "DEADBEEF".
Proof.
  apply (buffer2hex_hex2buffer (str "DEADBEEF") false false []).
  - reflexivity.
  - repeat constructor.
Defined.

(** ** Frames decoded from text *)

Lemma copy_data_spec (n : nat) :
  forall (i : nat) (buffer : std_string) (d : list (option ascii)),
    (i + n <= length d)%nat ->
    length (copy_data n i buffer d) = length d /\
    (forall j : nat, (i <= j < i + n)%nat ->
       copy_data n i buffer d !! j = Some (Some (char_at buffer j))) /\
    (forall j : nat, (j < i \/ i + n <= j)%nat ->
       copy_data n i buffer d !! j = d !! j).
Proof.
  induction n as [|n IH]; intros i buffer d Hlen.
  - split; [reflexivity|]. split; [intros j Hj; lia | reflexivity].
  - cbn [copy_data].
    destruct (IH (S i) buffer (<[i := Some (char_at buffer i)]> d))
      as (Hl & Hdone & Hrest); [rewrite length_insert; lia|].
    rewrite length_insert in Hl.
    split; [exact Hl|]. split.
    + intros j Hj. destruct (Nat.eq_dec j i) as [->|Hne].
      * rewrite Hrest by lia. apply list_lookup_insert_eq. lia.
      * apply Hdone. lia.
    + intros j Hj. rewrite Hrest by lia.
      apply list_lookup_insert_ne. lia.
Qed.

Lemma mkFrame_shape (h : Header) :
  dlc (mkFrame h 0) = 0 /\
  length (data (mkFrame h 0)) = 8%nat /\
  (forall j : nat, (j < 8)%nat -> data (mkFrame h 0) !! j = Some None).
Proof.
  split; [reflexivity|]. split; [reflexivity|].
  intros j Hj. cbn [data mkFrame]. apply lookup_replicate_2. exact Hj.
Qed.

(** The frame [toframe] builds once header and payload are accepted. *)
Lemma toframe_accepts (pre post buffer : std_string) :
  "#"%char ∉ pre ->
  isValid (toheader pre) = true ->
  hex2buffer [] post false = (true, buffer) ->
  (length buffer <= 8)%nat ->
  toframe (pre ++ "#"%char :: post) =
  {| header := toheader pre;
     data := copy_data (length buffer) 0 buffer (replicate 8 None);
     dlc := Z.of_nat (length buffer) |}.
Proof.
  intros Hpre Hvalid Hbuf Hlen.
  rewrite (toframe_split _ _ Hpre). cbv zeta. rewrite Hvalid, Hbuf.
  replace (8 <? length buffer)%nat with false
    by (symmetry; apply Nat.ltb_ge; exact Hlen).
  unfold uint8. rewrite Z.mod_small by (change (2 ^ 8) with 256; lia).
  reflexivity.
Qed.

(** X10: whatever the text, the frame [toframe] returns has a [dlc]
    between 0 and 8 and an array of 8 cells, of which exactly the first
    [dlc] have been written; a payload is only ever stored under a valid
    header. *)
Theorem toframe_shape (s : std_string) :
  0 <= dlc (toframe s) <= 8 /\
  length (data (toframe s)) = 8%nat /\
  (forall j : nat, (j < Z.to_nat (dlc (toframe s)))%nat ->
     exists c : ascii, data (toframe s) !! j = Some (Some c)) /\
  (forall j : nat, (Z.to_nat (dlc (toframe s)) <= j < 8)%nat ->
     data (toframe s) !! j = Some None) /\
  Frame_isValid (toframe s) = isValid (header (toframe s)) /\
  (0 < dlc (toframe s) -> isValid (header (toframe s)) = true).
Proof.
  assert (Hplain : forall h,
            0 <= dlc (mkFrame h 0) <= 8 /\
            length (data (mkFrame h 0)) = 8%nat /\
            (forall j : nat, (j < Z.to_nat (dlc (mkFrame h 0)))%nat ->
               exists c : ascii, data (mkFrame h 0) !! j = Some (Some c)) /\
            (forall j : nat, (Z.to_nat (dlc (mkFrame h 0)) <= j < 8)%nat ->
               data (mkFrame h 0) !! j = Some None) /\
            Frame_isValid (mkFrame h 0) = isValid (header (mkFrame h 0)) /\
            (0 < dlc (mkFrame h 0) -> isValid (header (mkFrame h 0)) = true)).
  { intros h. destruct (mkFrame_shape h) as (Hd & Hl & Hcells).
    unfold Frame_isValid. rewrite Hd.
    split; [lia|]. split; [exact Hl|].
    split; [intros j Hj; cbn in Hj; lia|].
    split; [intros j Hj; apply Hcells; lia|].
    split; [reflexivity | lia]. }
  unfold toframe.
  destruct (str_find "#" s) as [sep|]; [|apply Hplain].
  cbv zeta.
  destruct (isValid (toheader (substr s 0 (Some sep)))) eqn:Hvalid;
    [|apply Hplain].
  destruct (hex2buffer [] (substr s (sep + 1) None) false)
    as [[] buffer]; [|apply Hplain].
  destruct (Nat.ltb_spec 8 (length buffer)) as [Hlong|Hshort];
    [apply Hplain|].
  unfold Frame_isValid. cbn [header data dlc].
  unfold uint8. rewrite Z.mod_small by (change (2 ^ 8) with 256; lia).
  rewrite Nat2Z.id.
  destruct (copy_data_spec (length buffer) 0 buffer (replicate 8 None))
    as (Hl & Hdone & Hrest); [rewrite length_replicate; lia|].
  rewrite length_replicate in Hl.
  split; [lia|]. split; [exact Hl|]. split.
  - intros j Hj. exists (char_at buffer j). apply Hdone. lia.
  - split.
    + intros j Hj. rewrite Hrest by lia. apply lookup_replicate_2. lia.
    + split; [|intros _; exact Hvalid].
      replace (Z.of_nat (length buffer) <=? 8) with true
        by (symmetry; apply Z.leb_le; lia).
      reflexivity.
Qed.

(** X11: under a valid header, a payload of up to 16 hexadecimal digits
    (an even number of them) is stored byte by byte: [dlc] is half the
    number of digits and byte [j] is sixteen times digit [2j] plus digit
    [2j+1]. *)
Theorem toframe_payload_decoded (pre post : std_string) :
  "#"%char ∉ pre ->
  isValid (toheader pre) = true ->
  Nat.odd (length post) = false ->
  Forall (fun c => is_hex_digit c = true) post ->
  (length post <= 16)%nat ->
  header (toframe (pre ++ "#"%char :: post)) = toheader pre /\
  (2 * dlc (toframe (pre ++ "#"%char :: post)) = Z.of_nat (length post)) /\
  Frame_isValid (toframe (pre ++ "#"%char :: post)) = true /\
  (forall j : nat, (2 * j < length post)%nat ->
     exists hi lo : Z,
       hex2dec (char_at post (2 * j)) = Some hi /\
       hex2dec (char_at post (2 * j + 1)) = Some lo /\
       data (toframe (pre ++ "#"%char :: post)) !! j
       = Some (Some (chr (hi * 16 + lo)))).
Proof.
  intros Hpre Hvalid Heven Hhex Hlen.
  destruct (hex2buffer_ok [] post false (or_introl Heven) Hhex)
    as (buffer & E & Hl & Hbytes).
  assert (Hpad : padded_input post = post)
    by (unfold padded_input; rewrite Heven; reflexivity).
  destruct (padded_input_length post) as [H2 Hh]. rewrite Hpad in H2, Hh.
  rewrite <- Hh in Hl. rewrite Hpad in Hbytes.
  rewrite (toframe_accepts pre post buffer Hpre Hvalid E) by lia.
  unfold Frame_isValid. cbn [header data dlc].
  split; [reflexivity|]. split; [lia|]. split.
  - rewrite Hvalid.
    replace (Z.of_nat (length buffer) <=? 8) with true
      by (symmetry; apply Z.leb_le; lia).
    reflexivity.
  - intros j Hj.
    destruct (Hbytes j ltac:(lia)) as (hi & lo & Hhi & Hlo & Hb).
    exists hi, lo. split; [exact Hhi|]. split; [exact Hlo|].
    destruct (copy_data_spec (length buffer) 0 buffer (replicate 8 None))
      as (_ & Hdone & _); [rewrite length_replicate; lia|].
    rewrite Hdone by lia. unfold char_at.
    rewrite (nth_lookup_Some _ _ _ _ Hb). do 3 f_equal.
    pose proof (hex2dec_range _ _ Hhi) as Rhi.
    pose proof (hex2dec_range _ _ Hlo) as Rlo.
    clear -Rhi Rlo. by_nibble hi Rhi; by_nibble lo Rlo; reflexivity.
Qed.

Lemma toframe_payload_decoded_witness :
  header (toframe (str "1A3#DEADBEEF")) = toheader (str "1A3") /\
  (2 * dlc (toframe (str "1A3#DEADBEEF")) = Z.of_nat (length (str "DEADBEEF"))) /\
  Frame_isValid (toframe (str "1A3#DEADBEEF")) = true /\
  (forall j : nat, (2 * j < length (str "DEADBEEF"))%nat ->
     exists hi lo : Z,
       hex2dec (char_at (str "DEADBEEF") (2 * j)) = Some hi /\
       hex2dec (char_at (str "DEADBEEF") (2 * j + 1)) = Some lo /\
       data (toframe (str "1A3#DEADBEEF")) !! j
       = Some (Some (chr (hi * 16 + lo)))).
Proof.
  apply (toframe_payload_decoded (str "1A3") (str "DEADBEEF")).
  - vm_compute. intros H.
    repeat (apply elem_of_cons in H as [H|H]; [discriminate|]).
    inversion H.
  - reflexivity.
  - reflexivity.
  - repeat constructor.
  - vm_compute. lia.
Defined.

(** X12: a payload of more than 16 hexadecimal digits (an even number of
    them) under a valid header is rejected as a whole: the result is the
    sentinel, not the parsed header. *)
Theorem toframe_payload_too_long (pre post : std_string) :
  "#"%char ∉ pre ->
  isValid (toheader pre) = true ->
  Nat.odd (length post) = false ->
  Forall (fun c => is_hex_digit c = true) post ->
  (16 < length post)%nat ->
  toframe (pre ++ "#"%char :: post) = sentinel.
Proof.
  intros Hpre Hvalid Heven Hhex Hlen.
  destruct (hex2buffer_ok [] post false (or_introl Heven) Hhex)
    as (buffer & E & Hl & _).
  assert (Hpad : padded_input post = post)
    by (unfold padded_input; rewrite Heven; reflexivity).
  destruct (padded_input_length post) as [H2 Hh]. rewrite Hpad in H2, Hh.
  rewrite <- Hh in Hl.
  rewrite (toframe_split _ _ Hpre). cbv zeta. rewrite Hvalid, E.
  replace (8 <? length buffer)%nat with true
    by (symmetry; apply Nat.ltb_lt; lia).
  reflexivity.
Qed.

Lemma toframe_payload_too_long_witness :
  toframe (str "123#001122334455667788") = sentinel.
Proof.
  apply (toframe_payload_too_long (str "123") (str "001122334455667788")).
  - vm_compute. intros H.
    repeat (apply elem_of_cons in H as [H|H]; [discriminate|]).
    inversion H.
  - reflexivity.
  - reflexivity.
  - repeat constructor.
  - vm_compute. lia.
Defined.

(** ** The text of a header *)

Lemma hex_lit_case (lc : bool) (d : Z) :
  0 <= d < 16 -> is_digit_of_case lc (hex_lit (negb lc) d) = true.
Proof. intros H. by_nibble d H; destruct lc; reflexivity. Qed.

Lemma int_to_char_case (lc : bool) (fuel : nat) :
  forall (v : Z) (buf : std_string),
    Forall (fun c => is_digit_of_case lc c = true) buf ->
    Forall (fun c => is_digit_of_case lc c = true)
           (int_to_char fuel (negb lc) v buf).
Proof.
  induction fuel as [|fuel IH]; intros v buf Hbuf; cbn [int_to_char].
  - constructor; [apply hex_lit_case, lo_nibble_range | exact Hbuf].
  - destruct (Z.shiftr v 4 =? 0).
    + constructor; [apply hex_lit_case, lo_nibble_range | exact Hbuf].
    + apply IH. constructor; [apply hex_lit_case, lo_nibble_range | exact Hbuf].
Qed.

Lemma put_hex_length (uc : bool) (fill : ascii) (width : nat) (v : Z) :
  0 <= v < 2 ^ 32 -> (width <= 8)%nat ->
  (1 <= length (put_hex uc fill width v) <= 8)%nat /\
  (width <= length (put_hex uc fill width v))%nat.
Proof.
  intros Hv Hw. unfold put_hex.
  destruct (int_to_char_spec uc 7 v [] Hv) as (digits & E & _ & _ & Hlen).
  rewrite app_nil_r in E. rewrite E.
  rewrite length_app, length_replicate. lia.
Qed.

Lemma tostring_digits (h : Header) (lc : bool) :
  id_in_field h ->
  Forall (fun c => is_hex_digit c = true) (tostring h lc) /\
  hexval (tostring h lc) = Z.land (fullid h) (uint32 (Z.lnot EXTENDED_MASK)).
Proof.
  intros Hf. destruct (printed_value_bits h Hf) as (Hv & _).
  unfold tostring. cbv zeta.
  destruct (is_extended h).
  - destruct (put_hex_spec (negb lc) "0" 8
                (Z.land (fullid h) (uint32 (Z.lnot EXTENDED_MASK))))
      as (H1 & H2 & _); [lia | right; reflexivity |].
    split; assumption.
  - destruct (put_hex_spec (negb lc) " " 0
                (Z.land (fullid h) (uint32 (Z.lnot EXTENDED_MASK))))
      as (H1 & H2 & _); [lia | left; reflexivity |].
    split; assumption.
Qed.

Lemma hex_digits_no_hash (s : std_string) :
  Forall (fun c => is_hex_digit c = true) s -> "#"%char ∉ s.
Proof.
  intros Hs Hin.
  pose proof (proj1 (Forall_forall _ _) Hs _ Hin) as H.
  discriminate H.
Qed.

(** X13: the text of a header is made of hexadecimal digits of the case
    asked for, so it holds no ['#']; it denotes the packed identifier
    without the extended bit; it has between 1 and 8 characters, and
    exactly 8 for an extended header. *)
Theorem tostring_format (h : Header) (lc : bool) :
  id_in_field h ->
  Forall (fun c => is_digit_of_case lc c = true) (tostring h lc) /\
  ("#"%char ∉ tostring h lc) /\
  hexval (tostring h lc) = fullid h mod 2 ^ 31 /\
  (1 <= length (tostring h lc) <= 8)%nat /\
  (is_extended h = true -> length (tostring h lc) = 8%nat).
Proof.
  intros Hf.
  destruct (tostring_digits h lc Hf) as [Hhex Hval].
  destruct (printed_value_bits h Hf) as (Hv & _).
  split; [|split; [|split; [|split]]].
  - unfold tostring, put_hex. cbv zeta.
    destruct (is_extended h).
    + apply Forall_app. split; [apply Forall_replicate; reflexivity|].
      apply int_to_char_case. constructor.
    + cbn [Nat.sub replicate app]. apply int_to_char_case. constructor.
  - apply hex_digits_no_hash. exact Hhex.
  - rewrite Hval. change (uint32 (Z.lnot EXTENDED_MASK)) with (Z.ones 31).
    apply Z.land_ones. lia.
  - unfold tostring. cbv zeta.
    destruct (is_extended h); apply put_hex_length; lia.
  - intros Hext. unfold tostring. cbv zeta. rewrite Hext.
    destruct (put_hex_length (negb lc) "0" 8
                (Z.land (fullid h) (uint32 (Z.lnot EXTENDED_MASK))));
      lia.
Qed.

Lemma tostring_format_witness :
  Forall (fun c => is_digit_of_case true c = true)
         (tostring (ExtendedHeader 0x1ABC true) true) /\
  ("#"%char ∉ tostring (ExtendedHeader 0x1ABC true) true) /\
  hexval (tostring (ExtendedHeader 0x1ABC true) true)
  = fullid (ExtendedHeader 0x1ABC true) mod 2 ^ 31 /\
  (1 <= length (tostring (ExtendedHeader 0x1ABC true) true) <= 8)%nat /\
  (is_extended (ExtendedHeader 0x1ABC true) = true ->
   length (tostring (ExtendedHeader 0x1ABC true) true) = 8%nat).
Proof.
  apply (tostring_format (ExtendedHeader 0x1ABC true) true).
  vm_compute. split; [discriminate | reflexivity].
Defined.

(** ** Frames as text and back *)

(** The header of a valid frame survives the text when it is standard, or
    extended with an identifier of at least 2^11. *)
Lemma toheader_tostring_same (h : Header) (lc : bool) :
  id_in_field h -> isValid h = true ->
  is_extended h = false \/ 2 ^ 11 <= id h ->
  toheader (tostring h lc) = h.
Proof.
  intros Hf Hvalid Hround.
  destruct (printed_value_bits h Hf) as (Hv & Hid & Herr & Hrtr & Hext).
  destruct (tostring_digits h lc Hf) as [Hhex Hval].
  assert (Htohex : tohex (tostring h lc)
                   = Z.land (fullid h) (uint32 (Z.lnot EXTENDED_MASK))).
  { rewrite (tohex_digits _ Hhex), Hval. unfold UINT_MAX.
    clear -Hv. cbv zeta in Hv. lia. }
  rewrite toheader_fields, Htohex. cbv zeta in Hid, Herr, Hrtr, Hext.
  rewrite Hid, Herr, Hrtr, Hext. cbn [orb].
  destruct h as [i e r x]. cbn [id is_error is_rtr is_extended] in *.
  f_equal. unfold isValid in Hvalid. cbn [id is_extended] in Hvalid.
  destruct x.
  - destruct Hround as [Hx | Hge]; [discriminate|].
    assert (Hlen : length (tostring (HeaderBits i e r true) lc) = 8%nat).
    { unfold tostring. cbv zeta. cbn [is_extended].
      destruct (put_hex_length (negb lc) "0" 8
                  (Z.land (fullid (HeaderBits i e r true))
                     (uint32 (Z.lnot EXTENDED_MASK)))); [|lia..].
      clear -Hv. cbv zeta in Hv. lia. }
    rewrite Hlen. cbn [Nat.eqb andb]. apply Z.leb_le. exact Hge.
  - change (Z.shiftl 1 11) with (2 ^ 11) in Hvalid.
    apply Z.ltb_lt in Hvalid.
    replace (2 ^ 11 <=? i) with false by (symmetry; apply Z.leb_gt; lia).
    apply andb_false_r.
Qed.

Lemma hex2buffer_encoded (b : std_string) (lc pad : bool) (out : std_string) :
  hex2buffer out (buffer2hex b lc) pad = (true, b).
Proof.
  rewrite hex2buffer_runs
    by (left; rewrite buffer2hex_length, <- Nat.negb_even, Nat.even_mul;
        reflexivity).
  assert (Hpad : padded_input (buffer2hex b lc) = buffer2hex b lc).
  { unfold padded_input.
    rewrite buffer2hex_length, <- Nat.negb_even, Nat.even_mul. reflexivity. }
  rewrite Hpad.
  assert (Hhalf : Nat.shiftr (length (buffer2hex b lc)) 1 = length b).
  { rewrite buffer2hex_length, Nat.shiftr_div_pow2.
    change (2 ^ 1)%nat with 2%nat.
    rewrite Nat.mul_comm, Nat.div_mul by lia. reflexivity. }
  rewrite Hhalf.
  apply hex2buffer_loop_encoded; [lia | apply length_resize | reflexivity].
Qed.

Lemma read_data_spec (n : nat) :
  forall (i : nat) (d : list (option ascii)) (s : std_string),
    (i + n <= length s)%nat ->
    (forall j : nat, (i <= j < i + n)%nat ->
       exists c : ascii, d !! j = Some (Some c)) ->
    exists s' : std_string,
      read_data n i d s = Some s' /\
      length s' = length s /\
      (forall j : nat, (i <= j < i + n)%nat -> d !! j = Some (s' !! j)) /\
      (forall j : nat, (j < i \/ i + n <= j)%nat -> s' !! j = s !! j).
Proof.
  induction n as [|n IH]; intros i d s Hlen Hcells.
  - exists s. split; [reflexivity|]. split; [reflexivity|].
    split; [intros j Hj; lia | reflexivity].
  - cbn [read_data]. destruct (Hcells i ltac:(lia)) as [c Hc]. rewrite Hc.
    destruct (IH (S i) d (<[i := c]> s)) as (s' & E & Hl & Hdone & Hrest).
    { rewrite length_insert. lia. }
    { intros j Hj. apply Hcells. lia. }
    rewrite length_insert in Hl.
    exists s'. split; [exact E|]. split; [exact Hl|]. split.
    + intros j Hj. destruct (Nat.eq_dec j i) as [->|Hne].
      * rewrite Hrest by lia.
        rewrite list_lookup_insert_eq by lia. exact Hc.
      * apply Hdone. lia.
    + intros j Hj. rewrite Hrest by lia.
      apply list_lookup_insert_ne. lia.
Qed.

(** X14: a valid frame whose first [dlc] cells are written, with a
    standard header or an extended one with an identifier of at least
    2^11, has a text, and [toframe] reads from that text a valid frame
    with the same header, the same [dlc] and the same first [dlc] bytes. *)
Theorem toframe_tostring_Frame (f : Frame) (lc : bool) :
  id_in_field (header f) ->
  isValid (header f) = true ->
  is_extended (header f) = false \/ 2 ^ 11 <= id (header f) ->
  0 <= dlc f <= 8 ->
  (forall j : nat, (j < Z.to_nat (dlc f))%nat ->
     exists c : ascii, data f !! j = Some (Some c)) ->
  exists text : std_string,
    tostring_Frame f lc = Some text /\
    header (toframe text) = header f /\
    dlc (toframe text) = dlc f /\
    (forall j : nat, (j < Z.to_nat (dlc f))%nat ->
       data (toframe text) !! j = data f !! j) /\
    Frame_isValid (toframe text) = true.
Proof.
  intros Hf Hvalid Hround Hdlc Hcells.
  unfold tostring_Frame. cbv zeta.
  destruct (read_data_spec (Z.to_nat (dlc f)) 0 (data f)
              (resize (Z.to_nat (dlc f)) NUL []))
    as (s' & E & Hl & Hread & _).
  { rewrite length_resize. lia. }
  { intros j Hj. apply Hcells. lia. }
  rewrite length_resize in Hl. rewrite E.
  exists (tostring (header f) lc ++ "#"%char :: buffer2hex s' lc).
  split; [reflexivity|].
  destruct (tostring_digits (header f) lc Hf) as [Hhex _].
  pose proof (toheader_tostring_same (header f) lc Hf Hvalid Hround) as Hhdr.
  rewrite (toframe_accepts (tostring (header f) lc) (buffer2hex s' lc) s'
             (hex_digits_no_hash _ Hhex));
    [| rewrite Hhdr; exact Hvalid | apply hex2buffer_encoded | lia].
  unfold Frame_isValid. cbn [header data dlc]. rewrite Hhdr, Hl.
  split; [reflexivity|]. split; [lia|]. split.
  - intros j Hj.
    destruct (copy_data_spec (Z.to_nat (dlc f)) 0 s' (replicate 8 None))
      as (_ & Hdone & _); [rewrite length_replicate; lia|].
    rewrite Hdone by lia. rewrite (Hread j) by lia.
    destruct (lookup_lt_is_Some_2 s' j) as [c Hc]; [lia|].
    unfold char_at. rewrite (nth_lookup_Some _ _ _ _ Hc), Hc. reflexivity.
  - rewrite Hvalid.
    replace (Z.of_nat (Z.to_nat (dlc f)) <=? 8) with true
      by (symmetry; apply Z.leb_le; lia).
    reflexivity.
Qed.

Lemma toframe_tostring_Frame_witness :
  let f := {| header := ExtendedHeader 0x1337 false;
              data := [Some (chr 0xCA); Some (chr 0xFE); None; None;
                       None; None; None; None];
              dlc := 2 |} in
  exists text : std_string,
    tostring_Frame f true = Some text /\
    header (toframe text) = header f /\
    dlc (toframe text) = dlc f /\
    (forall j : nat, (j < Z.to_nat (dlc f))%nat ->
       data (toframe text) !! j = data f !! j) /\
    Frame_isValid (toframe text) = true.
Proof.
  intros f. apply (toframe_tostring_Frame f true).
  - vm_compute. split; [discriminate | reflexivity].
  - reflexivity.
  - right. vm_compute. discriminate.
  - vm_compute. split; discriminate.
  - intros j Hj. change (Z.to_nat (dlc f)) with 2%nat in Hj.
    destruct j as [|[|j]]; [eexists; reflexivity | eexists; reflexivity | lia].
Defined.

(** ** Filters from text with a separator *)

Lemma find_first_of_first (chars pre post : std_string) (c : ascii) :
  Forall (fun x => existsb (Ascii.eqb x) chars = false) pre ->
  existsb (Ascii.eqb c) chars = true ->
  find_first_of chars (pre ++ c :: post) = Some (length pre).
Proof.
  intros Hpre Hc. induction Hpre as [|x pre Hx _ IH]; cbn [app find_first_of].
  - rewrite Hc. reflexivity.
  - rewrite Hx, IH. reflexivity.
Qed.

Lemma find_first_of_Some (chars s : std_string) :
  forall d : nat,
    find_first_of chars s = Some d ->
    existsb (Ascii.eqb (char_at s d)) chars = true.
Proof.
  induction s as [|x s IH]; intros d Hd; [discriminate|].
  cbn [find_first_of] in Hd.
  destruct (existsb (Ascii.eqb x) chars) eqn:Hx.
  - injection Hd as <-. exact Hx.
  - destruct (find_first_of chars s) as [d'|]; [|discriminate].
    injection Hd as <-. unfold char_at. cbn [nth]. apply IH. reflexivity.
Qed.

(** The parts [tofilter] works on when the first separator is [c]. *)
Lemma tofilter_parts (MASK_RELAXED : Z) (pre post : std_string) (c : ascii) :
  Forall (fun x => is_separator x = false) pre ->
  is_separator c = true ->
  tofilter MASK_RELAXED (pre ++ c :: post) =
  let first := fullid (toheader pre) in
  let second := tohex post in
  if Ascii.eqb c "~" then Some (FrameMaskFilter first second true)
  else if Ascii.eqb c ":" then Some (FrameMaskFilter first second false)
  else if Ascii.eqb c "_" then Some (FrameRangeFilter first second true)
  else if Ascii.eqb c "-" then Some (FrameRangeFilter first second false)
  else None.
Proof.
  intros Hpre Hc. unfold tofilter.
  rewrite (find_first_of_first _ pre post c Hpre Hc).
  unfold substr. rewrite drop_0, take_app_length.
  replace (pre ++ c :: post) with ((pre ++ [c]) ++ post)
    by (rewrite <- app_assoc; reflexivity).
  rewrite drop_app_length' by (rewrite length_app; reflexivity).
  unfold char_at. rewrite <- app_assoc. cbn [app].
  rewrite (nth_lookup_Some (pre ++ c :: post) (length pre) NUL c)
    by (apply list_lookup_middle; reflexivity).
  reflexivity.
Qed.

(** X15: the first separator of a filter text decides the filter: [':']
    gives a mask filter, ['~'] an inverted mask filter, ['-'] a range
    filter and ['_'] an inverted range filter; its first value is the
    packed identifier of the header before the separator and its second
    value the number after it, later separators being part of that text. *)
Theorem tofilter_separator (MASK_RELAXED : Z) (pre post : std_string) :
  ":"%char ∉ pre -> "~"%char ∉ pre -> "-"%char ∉ pre -> "_"%char ∉ pre ->
  tofilter MASK_RELAXED (pre ++ ":"%char :: post)
  = Some (FrameMaskFilter (fullid (toheader pre)) (tohex post) false) /\
  tofilter MASK_RELAXED (pre ++ "~"%char :: post)
  = Some (FrameMaskFilter (fullid (toheader pre)) (tohex post) true) /\
  tofilter MASK_RELAXED (pre ++ "-"%char :: post)
  = Some (FrameRangeFilter (fullid (toheader pre)) (tohex post) false) /\
  tofilter MASK_RELAXED (pre ++ "_"%char :: post)
  = Some (FrameRangeFilter (fullid (toheader pre)) (tohex post) true).
Proof.
  intros H1 H2 H3 H4.
  pose proof (no_separator_chars pre H1 H2 H3 H4) as Hpre.
  repeat split; rewrite (tofilter_parts _ _ _ _ Hpre); reflexivity.
Qed.

Lemma tofilter_separator_witness :
  tofilter 0 (str "123" ++ ":"%char :: str "7FF")
  = Some (FrameMaskFilter (fullid (toheader (str "123"))) (tohex (str "7FF")) false) /\
  tofilter 0 (str "123" ++ "~"%char :: str "7FF")
  = Some (FrameMaskFilter (fullid (toheader (str "123"))) (tohex (str "7FF")) true) /\
  tofilter 0 (str "123" ++ "-"%char :: str "7FF")
  = Some (FrameRangeFilter (fullid (toheader (str "123"))) (tohex (str "7FF")) false) /\
  tofilter 0 (str "123" ++ "_"%char :: str "7FF")
  = Some (FrameRangeFilter (fullid (toheader (str "123"))) (tohex (str "7FF")) true).
Proof.
  apply (tofilter_separator 0 (str "123") (str "7FF"));
    vm_compute; intros H;
    repeat (apply elem_of_cons in H as [H|H]; [discriminate|]);
    inversion H.
Defined.

(** X16: [tofilter] never returns the null pointer: every text, with or
    without separator, yields a mask filter or a range filter. *)
Theorem tofilter_not_null (MASK_RELAXED : Z) (s : std_string) :
  exists (first second : Z) (invert : bool),
    tofilter MASK_RELAXED s = Some (FrameMaskFilter first second invert) \/
    tofilter MASK_RELAXED s = Some (FrameRangeFilter first second invert).
Proof.
  unfold tofilter.
  destruct (find_first_of (str ":~-_") s) as [d|] eqn:Hd.
  - apply find_first_of_Some in Hd.
    cbn [str list_ascii_of_string existsb] in Hd.
    destruct (Ascii.eqb (char_at s d) "~");
      [do 3 eexists; left; reflexivity|].
    destruct (Ascii.eqb (char_at s d) ":");
      [do 3 eexists; left; reflexivity|].
    destruct (Ascii.eqb (char_at s d) "_");
      [do 3 eexists; right; reflexivity|].
    destruct (Ascii.eqb (char_at s d) "-");
      [do 3 eexists; right; reflexivity|].
    discriminate Hd.
  - do 3 eexists. left. reflexivity.
Qed.

(** ** Frames with an invalid header *)

(** X17: when the text before the first ['#'] parses to an invalid header,
    the payload is not looked at: whatever follows the ['#'], well formed
    or not, the result is the parsed header with [dlc] 0, an invalid
    frame. *)
Theorem toframe_invalid_header (pre post : std_string) :
  "#"%char ∉ pre ->
  isValid (toheader pre) = false ->
  toframe (pre ++ "#"%char :: post) = mkFrame (toheader pre) 0 /\
  Frame_isValid (toframe (pre ++ "#"%char :: post)) = false.
Proof.
  intros Hpre Hinvalid.
  assert (E : toframe (pre ++ "#"%char :: post) = mkFrame (toheader pre) 0).
  { rewrite (toframe_split _ _ Hpre). cbv zeta. rewrite Hinvalid.
    reflexivity. }
  rewrite E. split; [reflexivity|].
  unfold Frame_isValid. cbn [header mkFrame]. rewrite Hinvalid.
  apply andb_false_r.
Qed.

Lemma toframe_invalid_header_witness :
  toframe (str "1337" ++ "#"%char :: str "1234567812345678")
  = mkFrame (toheader (str "1337")) 0 /\
  Frame_isValid (toframe (str "1337" ++ "#"%char :: str "1234567812345678"))
  = false.
Proof.
  apply (toframe_invalid_header (str "1337") (str "1234567812345678")).
  - vm_compute. intros H.
    repeat (apply elem_of_cons in H as [H|H]; [discriminate|]).
    inversion H.
  - reflexivity.
Defined.
